(** * Boston.com Speed Read: the summary generator, embedded and verified

    A shallow embedding of [generate_summaries.py].  Python text is a
    sequence of Unicode code points; the external services (HTTP, the feed
    parser, the chat-completion endpoint, the clock, the two JSON files) are
    explicit inputs of the functions that consume them. *)

From stdpp Require Import base option list strings gmap sets sorting.
From Stdlib Require Import NArith Ascii Lia.

Local Open Scope N_scope.

(** ** Python [str] *)

Module PyStr.

(** A Python string: its code points, in order. *)
Definition str := list N.

(** An ASCII literal as a Python string. *)
Definition str_of (s : string) : str :=
  (λ a, N_of_ascii a) <$> String.list_ascii_of_string s.

Definition str_eqb (a b : str) : bool := bool_decide (a = b).

(** Truthiness of a string: non-empty. *)
Definition truthy (s : str) : bool :=
  match s with [] => false | _ => true end.

(** [s.startswith(prefix)] *)
Fixpoint startswith (s prefix : str) : bool :=
  match prefix, s with
  | [], _ => true
  | _ :: _, [] => false
  | p :: prefix', c :: s' => (p =? c) && startswith s' prefix'
  end.

(** [word in s]: substring test. *)
Fixpoint contains (s word : str) : bool :=
  startswith s word ||
  match s with
  | [] => false
  | _ :: s' => contains s' word
  end.

(** [str.isspace] on one code point (CPython's [_PyUnicode_IsWhitespace]). *)
Definition isspace (c : N) : bool :=
  ((9 <=? c) && (c <=? 13)) || ((28 <=? c) && (c <=? 32)) ||
  (c =? 133) || (c =? 160) || (c =? 5760) ||
  ((8192 <=? c) && (c <=? 8202)) || (c =? 8232) || (c =? 8233) ||
  (c =? 8239) || (c =? 8287) || (c =? 12288).

Fixpoint lstrip (s : str) : str :=
  match s with
  | c :: s' => if isspace c then lstrip s' else s
  | [] => []
  end.

Definition rstrip (s : str) : str := reverse (lstrip (reverse s)).

(** [s.strip()] *)
Definition strip (s : str) : str := rstrip (lstrip s).

(** [s.split('\n')]: never empty, one more piece than there are newlines. *)
Fixpoint split_lines (s : str) : list str :=
  match s with
  | [] => [[]]
  | c :: s' =>
      if c =? 10 then [] :: split_lines s'
      else match split_lines s' with
           | l :: ls => (c :: l) :: ls
           | [] => [[c]]
           end
  end.

(** [sep.join(parts)] *)
Fixpoint join (sep : str) (parts : list str) : str :=
  match parts with
  | [] => []
  | [p] => p
  | p :: ps => p ++ sep ++ join sep ps
  end.

(** [a <= b] on strings: lexicographic on code points. *)
Fixpoint str_le (a b : str) : bool :=
  match a, b with
  | [], _ => true
  | _ :: _, [] => false
  | x :: a', y :: b' => (x <? y) || ((x =? y) && str_le a' b')
  end.

(** [str.lower] restricted to ASCII: A-Z go to a-z, all else is unchanged. *)
Definition ascii_lower_char (c : N) : N :=
  if (65 <=? c) && (c <=? 90) then c + 32 else c.

Definition ascii_lower (s : str) : str := ascii_lower_char <$> s.

Definition is_ascii (s : str) : Prop := Forall (λ c, c < 128) s.

End PyStr.

Import PyStr.

(** The exceptions the program can meet. *)
Inductive exn :=
  | AttributeError
  | IndexError
  | FileNotFoundError
  | OSError            (* any other failure to open or read a file *)
  | JSONDecodeError
  | RuntimeError.      (* anything else a library call raises *)

(** ** Classifier *)

Module Classifier.

Inductive HookType :=
  SPORTS | TRANSIT | POLITICS | WEATHER | LOCAL_IMPACT | NEWS.

#[global] Instance HookType_eq_dec : EqDecision HookType.
Proof. solve_decision. Defined.

(** The label as the string the code returns. *)
Definition label (h : HookType) : str :=
  match h with
  | SPORTS => str_of "SPORTS"
  | TRANSIT => str_of "TRANSIT"
  | POLITICS => str_of "POLITICS"
  | WEATHER => str_of "WEATHER"
  | LOCAL_IMPACT => str_of "LOCAL_IMPACT"
  | NEWS => str_of "NEWS"
  end.

Definition sports_words : list str :=
  str_of <$> ["patriots"; "celtics"; "bruins"; "red sox"]%string.
Definition transit_words : list str :=
  str_of <$> ["mbta"; "orange line"; "green line"; "commuter rail"; "traffic"]%string.
Definition politics_words : list str :=
  str_of <$> ["mayor"; "city council"; "election"; "vote"]%string.
Definition weather_words : list str :=
  str_of <$> ["weather"; "storm"; "snow"; "rain"]%string.
Definition local_words : list str :=
  str_of <$> ["boston"; "cambridge"; "somerville"; "brookline"]%string.

(** [any(word in text for word in words)] *)
Definition any_in (text : str) (words : list str) : bool :=
  existsb (contains text) words.

Section WithLower.

(** [str.lower] of the Python runtime (the Unicode case tables are not part
    of the repository). *)
Variable lower : str → str.

(** [v.lower()] on a value that may be [None]. *)
Definition py_lower (v : option str) : exn + str :=
  match v with
  | None => inl AttributeError
  | Some s => inr (lower s)
  end.

(** The chain of [if]/[elif] on the two lowercased texts. *)
Definition classify_lowered (title_lower content_lower : str) : HookType :=
  if any_in title_lower sports_words then SPORTS
  else if any_in title_lower transit_words then TRANSIT
  else if any_in title_lower politics_words then POLITICS
  else if any_in title_lower weather_words then WEATHER
  else if any_in content_lower local_words then LOCAL_IMPACT
  else NEWS.

(** [determine_hook_type(title, content)]; either argument may be [None]
    at run time, whatever the annotations say. *)
Definition determine_hook_type (title content : option str) : exn + HookType :=
  match py_lower title with
  | inl e => inl e
  | inr title_lower =>
      let content_lower :=
        match content with
        | Some c => if truthy c then py_lower content else inr []
        | None => inr []
        end in
      match content_lower with
      | inl e => inl e
      | inr content_lower => inr (classify_lowered title_lower content_lower)
      end
  end.

End WithLower.

End Classifier.

(** ** The parsed page (BeautifulSoup) *)

Module Html.

(** A node of the parsed document: a string that [get_text] reports, a
    string that it skips (a comment, a declaration), or a tag with its name
    as the parser stores it (lowercase), its class list and its children in
    document order. *)
#[warnings="-register-all"]
Inductive node :=
  | Text (s : str)
  | Comment (s : str)
  | Elem (tag : str) (classes : list str) (children : list node).

(** The tags removed before extraction. *)
Definition unwanted_tags : list str :=
  str_of <$> ["script"; "style"; "nav"; "header"; "footer"; "aside"]%string.

Definition is_unwanted (tag : str) : bool :=
  existsb (str_eqb tag) unwanted_tags.

(** [for element in soup.find_all([...]): element.decompose()]: the tree
    without the unwanted elements and everything below them. *)
Fixpoint decompose_unwanted (n : node) : list node :=
  match n with
  | Elem tag classes children =>
      if is_unwanted tag then []
      else [Elem tag classes (flat_map decompose_unwanted children)]
  | _ => [n]
  end.

(** All nodes below (and including) a node, in document order. *)
Fixpoint self_and_descendants (n : node) : list node :=
  n :: match n with
       | Elem _ _ children => flat_map self_and_descendants children
       | _ => []
       end.

(** The soup object is the root; its descendants are the whole document. *)
Definition descendants (soup : list node) : list node :=
  flat_map self_and_descendants soup.

Inductive selector :=
  | ByClass (c : str)    (* [.c] *)
  | ByTag (t : str).     (* [t] *)

Definition matches (sel : selector) (n : node) : bool :=
  match n, sel with
  | Elem _ classes _, ByClass c => existsb (str_eqb c) classes
  | Elem tag _ _, ByTag t => str_eqb tag t
  | _, _ => false
  end.

(** [soup.select_one(selector)]: the first match in document order. *)
Definition select_one (sel : selector) (soup : list node) : option node :=
  head (filter (λ n, matches sel n = true) (descendants soup)).

(** [soup.find_all(tag)] *)
Definition find_all (tag : str) (soup : list node) : list node :=
  filter (λ n, matches (ByTag tag) n = true) (descendants soup).

(** The stripped, non-empty text strings below a node, in document order. *)
Definition stripped_strings (n : node) : list str :=
  omap (λ d, match d with
             | Text s => let s' := strip s in
                         if truthy s' then Some s' else None
             | _ => None
             end) (self_and_descendants n).

(** [element.get_text(strip=True)]: the stripped strings joined by the
    empty separator. *)
Definition get_text (n : node) : str := join [] (stripped_strings n).

End Html.

Import Html.

(** ** ContentExtractor *)

Module ContentExtractor.

(** What [session.get] followed by [raise_for_status] and the parse gives:
    an exception, or the parsed page. *)
Inductive http_response :=
  | HttpFailure
  | HttpOk (soup : list node).

Definition selectors : list selector :=
  [ByClass (str_of "entry-content"); ByClass (str_of "article-body");
   ByClass (str_of "post-content"); ByTag (str_of "article")].

(** The [for selector in ...] loop with its [break]: the text of the first
    element found, if any selector finds one. *)
Fixpoint try_selectors (sels : list selector) (soup : list node) : option str :=
  match sels with
  | [] => None
  | sel :: sels' =>
      match select_one sel soup with
      | Some element => Some (get_text element)
      | None => try_selectors sels' soup
      end
  end.

(** [' '.join([p.get_text(strip=True) for p in paragraphs[:10]])] *)
Definition paragraph_text (soup : list node) : str :=
  join (str_of " ") (get_text <$> take 10 (find_all (str_of "p") soup)).

(** [not content], for [content] either [None] or a string. *)
Definition falsy (content : option str) : bool :=
  match content with
  | None => true
  | Some s => negb (truthy s)
  end.

(** The value of [content] just before the [return]. *)
Definition extracted (soup : list node) : str :=
  let soup := flat_map decompose_unwanted soup in
  let content := try_selectors selectors soup in
  if falsy content then paragraph_text soup else default [] content.

(** [fetch_article_content(url)], given what the request for [url] gives. *)
Definition fetch_article_content (response : http_response) : option str :=
  match response with
  | HttpFailure => None
  | HttpOk soup =>
      let content := extracted soup in
      if truthy content then Some (take 4000 content) else None
  end.

(** *** The extractor as the specification words it *)

Definition spec_selectors : list selector :=
  [ByClass (str_of "content-body"); ByClass (str_of "article-body");
   ByClass (str_of "post-content"); ByTag (str_of "article")].

(** The first selector that matches any element supplies the excerpt; the
    paragraphs are used only if none matches. *)
Definition spec_extracted (soup : list node) : str :=
  let soup := flat_map decompose_unwanted soup in
  match try_selectors spec_selectors soup with
  | Some text => text
  | None => paragraph_text soup
  end.

End ContentExtractor.

(** ** Summarizer *)

Module Summarizer.

Definition nl : str := [10].
Definition dq : str := [34].

(** The three pieces of the prompt around the title and the content. *)
Definition prompt_head : str :=
  str_of "You are creating a 3-bullet summary for a Boston news story. " ++
  nl ++
  nl ++
  str_of "STORY TITLE: ".

Definition prompt_middle : str :=
  nl ++
  str_of "STORY CONTENT: ".

Definition prompt_tail : str :=
  nl ++
  nl ++
  str_of "Create exactly 3 bullets following these rules:" ++
  nl ++
  nl ++
  str_of "BULLET 1: What happened - concrete facts, include specific numbers/names if available" ++
  nl ++
  str_of "BULLET 2: Key detail or impact - why this matters to Boston/locals  " ++
  nl ++
  str_of "BULLET 3: Story-specific curiosity gap - identify something genuinely intriguing about THIS specific story that would make someone want to read more. DO NOT use generic phrases like " ++
  dq ++
  str_of "You won't believe" ++
  dq ++
  str_of ", " ++
  dq ++
  str_of "The surprising reason" ++
  dq ++
  str_of ", " ++
  dq ++
  str_of "One detail changes everything" ++
  dq ++
  str_of ", etc. Instead, hint at specific unanswered questions, contradictions, backstories, or unexpected connections that are unique to this particular story." ++
  nl ++
  nl ++
  str_of "Examples of GOOD bullet 3s (story-specific):" ++
  nl ++
  str_of "- " ++
  dq ++
  str_of "The restaurant's sudden closure traces back to a decades-old family feud" ++
  dq ++
  str_of "  " ++
  nl ++
  str_of "- " ++
  dq ++
  str_of "Three city councilors changed their votes in the final 30 seconds" ++
  dq ++
  nl ++
  str_of "- " ++
  dq ++
  str_of "The building's architect designed it to intentionally violate fire codes" ++
  dq ++
  nl ++
  str_of "- " ++
  dq ++
  str_of "Police found evidence that contradicts the victim's own testimony" ++
  dq ++
  nl ++
  nl ++
  str_of "Examples of BAD bullet 3s (generic templates):" ++
  nl ++
  str_of "- " ++
  dq ++
  str_of "You won't believe what happened next" ++
  dq ++
  nl ++
  str_of "- " ++
  dq ++
  str_of "The surprising reason will shock you" ++
  dq ++
  str_of " " ++
  nl ++
  str_of "- " ++
  dq ++
  str_of "One detail changes everything" ++
  dq ++
  nl ++
  str_of "- " ++
  dq ++
  str_of "The truth behind X will amaze you" ++
  dq ++
  nl ++
  nl ++
  str_of "Be specific to THIS story. What unique, substantive detail or question would genuinely intrigue readers?" ++
  nl ++
  nl ++
  str_of "Format as three separate lines, each starting with a bullet point.".

(** The f-string: the title and the first 2000 characters of the content. *)
Definition prompt (title content : str) : str :=
  prompt_head ++ title ++ prompt_middle ++ take 2000 content ++ prompt_tail.

(** What [client.chat.completions.create] gives: an exception, or a response
    whose choices each carry a message content, possibly [None]. *)
Inductive completion :=
  | CallRaises
  | Response (choices : list (option str)).

(** The recognised bullet markers; the first is U+2022. *)
Definition prefixes : list str :=
  [[8226]; str_of "-"; str_of "*"; str_of "1."; str_of "2."; str_of "3."].

(** The inner loop: strip the first marker the line starts with. *)
Fixpoint clean_line (line : str) (ps : list str) : str :=
  match ps with
  | [] => line
  | p :: ps' =>
      if startswith line p then strip (drop (length p) line)
      else clean_line line ps'
  end.

(** One line of the response: a bullet, or nothing. *)
Definition parse_line (line : str) : option str :=
  let line := strip line in
  if truthy line && existsb (startswith line) prefixes
  then Some (clean_line line prefixes)
  else None.

(** The parsing loop over [summary_text.split('\n')]. *)
Definition parse_bullets (summary_text : str) : list str :=
  omap parse_line (split_lines summary_text).

Definition fallback_parse (title : str) : list str :=
  [str_of "Breaking news from Boston: " ++ title;
   str_of "Story developing with local impact";
   str_of "Full details and context available at Boston.com"].

Definition fallback_error (title : str) : list str :=
  [str_of "Boston news update: " ++ title;
   str_of "Local story with community impact";
   str_of "Additional details in full article"].

(** [response.choices[0].message.content.strip()] inside the [try]: the
    call may raise, an empty choice list raises [IndexError], a [None]
    content raises [AttributeError]. *)
Definition summary_text (c : completion) : exn + str :=
  match c with
  | CallRaises => inl RuntimeError
  | Response [] => inl IndexError
  | Response (None :: _) => inl AttributeError
  | Response (Some content :: _) => inr (strip content)
  end.

(** [create_summary(title, content, url)], given the completion service as
    a function of the prompt.  The [except Exception] clause takes every
    exception of the [try] block. *)
Definition create_summary (chat : str → completion)
    (title content url : str) : list str :=
  match summary_text (chat (prompt title content)) with
  | inr text =>
      let bullets := parse_bullets text in
      if bool_decide (3 ≤ length bullets)%nat then take 3 bullets
      else fallback_parse title
  | inl _ => fallback_error title
  end.

End Summarizer.

(** ** FeedPipeline *)

Module FeedPipeline.

Import Classifier ContentExtractor Summarizer.

Definition RSS_FEEDS : list str :=
  [str_of "https://www.boston.com/feed/bdc-msn-rss"].

Definition MAX_ARTICLES : nat := 12.

(** A feed entry as the parser gives it; every key may be missing.
    [entry.link] and [entry.title] raise [AttributeError] when it is,
    [entry.get(key, '')] gives the empty string. *)
Record entry := {
  e_link : option str;
  e_title : option str;
  e_published : option str;
  e_summary : option str;
}.

(** [feedparser.parse(feed_url)]: an exception, or a feed with entries. *)
Inductive feed :=
  | FeedRaises
  | Feed (entries : list entry).

(** The article dictionary. *)
Record article := {
  title : str;
  link : str;
  pubDate : str;
  summary : list str;
  hookType : str;
  processed_at : str;
}.

(** The outside world of one run.  A page is requested once per link; the
    completion and the clock are asked once per article and are indexed by
    the number of articles built before. *)
Record services := {
  lower : str → str;
  parse : str → feed;
  http_get : str → http_response;
  chat : nat → str → completion;
  now : nat → str;
}.

(** [all_articles] and [seen_urls]. *)
Record state := {
  all_articles : list article;
  seen_urls : gset str;
}.

Section Run.

Variable svc : services.

(** The body of the loop over the entries.  The flag says that the body
    raised; the state is the one reached at that point. *)
Definition process_entry (st : state) (e : entry) : state * bool :=
  match e_link e with
  | None => (st, true)
  | Some url =>
      if bool_decide (url ∈ seen_urls st) then (st, false)
      else
        let st := {| all_articles := all_articles st;
                     seen_urls := {[url]} ∪ seen_urls st |} in
        let content := fetch_article_content (http_get svc url) in
        let content :=
          if falsy content then default [] (e_summary e)
          else default [] content in
        match e_title e with
        | None => (st, true)
        | Some ttl =>
            let n := length (all_articles st) in
            let bullets := create_summary (chat svc n) ttl content url in
            match determine_hook_type (lower svc) (Some ttl) (Some content) with
            | inl _ => (st, true)
            | inr hook_type =>
                let a := {| title := ttl;
                            link := url;
                            pubDate := default [] (e_published e);
                            summary := bullets;
                            hookType := label hook_type;
                            processed_at := now svc n |} in
                ({| all_articles := all_articles st ++ [a];
                    seen_urls := seen_urls st |}, false)
            end
        end
  end.

(** The loop over [feed.entries[:15]]; an exception leaves it. *)
Fixpoint process_entries (st : state) (entries : list entry) : state :=
  match entries with
  | [] => st
  | e :: rest =>
      match process_entry st e with
      | (st', true) => st'
      | (st', false) => process_entries st' rest
      end
  end.

(** One round of the loop over the feeds: the [try] with its [except]. *)
Definition process_feed (st : state) (feed_url : str) : state :=
  match parse svc feed_url with
  | FeedRaises => st
  | Feed entries => process_entries st (take 15 entries)
  end.

(** [a < b] on strings. *)
Definition str_lt (a b : str) : bool := negb (str_le b a).

(** [list.sort(key=pubDate, reverse=True)] is a stable sort into
    descending key order: an element is placed before the first one whose
    key is not greater than its own. *)
Fixpoint insert_desc (a : article) (sorted : list article) : list article :=
  match sorted with
  | [] => [a]
  | b :: rest =>
      if str_lt (pubDate a) (pubDate b) then b :: insert_desc a rest
      else a :: b :: rest
  end.

Definition sort_by_pubDate_desc (l : list article) : list article :=
  foldr insert_desc [] l.

Definition initial : state := {| all_articles := []; seen_urls := ∅ |}.

(** The function, for any list of feed addresses. *)
Definition fetch_and_process (feed_urls : list str) : list article :=
  let st := foldl process_feed initial feed_urls in
  take MAX_ARTICLES (sort_by_pubDate_desc (all_articles st)).

(** [fetch_and_process_feeds()] *)
Definition fetch_and_process_feeds : list article :=
  fetch_and_process RSS_FEEDS.

End Run.

End FeedPipeline.

(** ** Persistence *)

Module Persistence.

Import FeedPipeline.

(** [news-data.json] *)
Record stats_block := {
  totalArticles : nat;
  lastRefresh : str;
  version : str;
}.

Record news_data := {
  lastUpdated : str;
  articles : list article;
  stats : stats_block;
}.

(** [news-history.json] once parsed: a dictionary whose three keys may each
    be missing.  Keys other than these are carried along unchanged and play
    no part below. *)
Record history := {
  hist_articles : option (list article);
  hist_lastUpdated : option str;
  hist_totalArticles : option nat;
}.

(** What opening and parsing the history file can give. *)
Inductive history_file :=
  | Missing                 (* [open] raises [FileNotFoundError] *)
  | Unreadable              (* [open] or [read] raises another [OSError] *)
  | Malformed               (* [json.load] raises [JSONDecodeError] *)
  | Parsed (h : history).

(** The two files; the snapshot is [None] until it is first written. *)
Record files := {
  news_data_json : option news_data;
  news_history_json : history_file;
}.

(** The [try] around the read, with its one [except] clause. *)
Definition load_history (f : history_file) : exn + history :=
  match f with
  | Missing => inr {| hist_articles := Some [];
                      hist_lastUpdated := None;
                      hist_totalArticles := Some 0%nat |}
  | Unreadable => inl OSError
  | Malformed => inl JSONDecodeError
  | Parsed h => inr h
  end.

(** [history.get("articles", [])] *)
Definition get_articles (h : history) : list article :=
  default [] (hist_articles h).

(** The articles whose link the history does not have yet. *)
Definition new_unique (arts : list article) (h : history) : list article :=
  let existing_links : gset str := list_to_set (link <$> get_articles h) in
  filter (λ a, link a ∉ existing_links) arts.

(** The history after the merge. *)
Definition merge (current_time : str) (arts : list article) (h : history) : history :=
  let merged := take 50 (new_unique arts h ++ get_articles h) in
  {| hist_articles := Some merged;
     hist_lastUpdated := Some current_time;
     hist_totalArticles := Some (length merged) |}.

(** [save_data(articles)] at time [current_time]: the files afterwards, and
    the exception if one leaves the function. *)
Definition save_data (current_time : str) (arts : list article) (fs : files)
    : files * option exn :=
  let snapshot :=
    {| lastUpdated := current_time;
       articles := arts;
       stats := {| totalArticles := length arts;
                   lastRefresh := current_time;
                   version := str_of "2.0" |} |} in
  match load_history (news_history_json fs) with
  | inl e =>
      ({| news_data_json := Some snapshot;
          news_history_json := news_history_json fs |}, Some e)
  | inr h =>
      ({| news_data_json := Some snapshot;
          news_history_json := Parsed (merge current_time arts h) |}, None)
  end.

End Persistence.

(** * Specification-level notions *)

(** [text] has [word] as a substring. *)
Definition substring_of (word text : str) : Prop :=
  ∃ pre post, text = pre ++ word ++ post.

(** [text] has one of [words] as a substring. *)
Definition mentions (text : str) (words : list str) : Prop :=
  ∃ word, word ∈ words ∧ substring_of word text.

(** The runtime's [str.lower] agrees with the ASCII table on ASCII text. *)
Definition lower_on_ascii (lower : str → str) : Prop :=
  ∀ s, is_ascii s → lower s = ascii_lower s.

(** Two pages on which the order and the fallback of the extractor show. *)

(** A page with a [content-body] block and an [article]. *)
Definition page_content_body : list node :=
  [Html.Elem (str_of "div") [str_of "content-body"] [Html.Text (str_of "A")];
   Html.Elem (str_of "article") [] [Html.Text (str_of "B")]].

(** A page whose [article-body] block has no text, and one paragraph. *)
Definition page_empty_block : list node :=
  [Html.Elem (str_of "div") [str_of "article-body"] [];
   Html.Elem (str_of "p") [] [Html.Text (str_of "P")]].

(** The entries one run looks at in one feed: at most its first 15, none
    when the feed does not parse. *)
Definition feed_entries (svc : FeedPipeline.services) (feed_url : str)
    : list FeedPipeline.entry :=
  match FeedPipeline.parse svc feed_url with
  | FeedPipeline.FeedRaises => []
  | FeedPipeline.Feed entries => take 15 entries
  end.

(** The entries one run looks at, feed after feed. *)
Definition considered (svc : FeedPipeline.services) (feed_urls : list str)
    : list FeedPipeline.entry :=
  flat_map (feed_entries svc) feed_urls.

(** The article was built from this entry. *)
Definition made_from (a : FeedPipeline.article) (e : FeedPipeline.entry) : Prop :=
  FeedPipeline.e_link e = Some (FeedPipeline.link a) ∧
  FeedPipeline.e_title e = Some (FeedPipeline.title a) ∧
  FeedPipeline.pubDate a = default [] (FeedPipeline.e_published e).

(** The entry has the two keys the loop reads without a default. *)
Definition well_formed (e : FeedPipeline.entry) : Prop :=
  is_Some (FeedPipeline.e_link e) ∧ is_Some (FeedPipeline.e_title e).

(** [a] may stand before [b] in descending order of [pubDate]. *)
Definition pubDate_desc (a b : FeedPipeline.article) : Prop :=
  str_le (FeedPipeline.pubDate b) (FeedPipeline.pubDate a) = true.

(** What the loop keeps true of the articles built so far, given the
    entries [src] it has been through. *)
Definition links_tracked (st : FeedPipeline.state) (src : list FeedPipeline.entry) : Prop :=
  NoDup (FeedPipeline.link <$> FeedPipeline.all_articles st) ∧
  (∀ a, a ∈ FeedPipeline.all_articles st →
        FeedPipeline.link a ∈ FeedPipeline.seen_urls st) ∧
  (∀ a, a ∈ FeedPipeline.all_articles st → ∃ e, e ∈ src ∧ made_from a e).

(** The article comes from the first entry of [src] that has its link. *)
Definition first_seen (src : list FeedPipeline.entry) (a : FeedPipeline.article) : Prop :=
  ∃ pre e post, src = pre ++ e :: post ∧ made_from a e ∧
    Forall (λ e', FeedPipeline.e_link e' ≠ FeedPipeline.e_link e) pre.

(** The entries on which the loop body runs: those of the list up to and
    including the first one that makes it raise. *)
Fixpoint visited_in (svc : FeedPipeline.services) (st : FeedPipeline.state)
    (entries : list FeedPipeline.entry) : list FeedPipeline.entry :=
  match entries with
  | [] => []
  | e :: rest =>
      e :: match FeedPipeline.process_entry svc st e with
           | (_, true) => []
           | (st', false) => visited_in svc st' rest
           end
  end.

(** The entries on which the loop body runs in one run, from state [st]. *)
Fixpoint visited (svc : FeedPipeline.services) (st : FeedPipeline.state)
    (feed_urls : list str) : list FeedPipeline.entry :=
  match feed_urls with
  | [] => []
  | u :: urls =>
      visited_in svc st (feed_entries svc u) ++
      visited svc (FeedPipeline.process_feed svc st u) urls
  end.

(** What the loop keeps true of the entries [src] its body has run on. *)
Definition first_seen_wins (st : FeedPipeline.state) (src : list FeedPipeline.entry) : Prop :=
  (∀ a, a ∈ FeedPipeline.all_articles st → first_seen src a) ∧
  (∀ e l, e ∈ src → FeedPipeline.e_link e = Some l →
          l ∈ FeedPipeline.seen_urls st).

(** *** Sample data *)

(** A response with a preamble, five marked lines and one numbered [4.]. *)
Definition sample_response : str :=
  str_of "Here you go:" ++ [10] ++
  [8226; 32] ++ str_of "First one  " ++ [10; 10] ++
  str_of "- second" ++ [13; 10] ++
  str_of "  3. third" ++ [10] ++
  str_of "4. fourth" ++ [10] ++
  str_of "*".

(** The feed of the specification's scenario: two entries with the link
    [L1], then a third entry. *)
Definition sample_entries : list FeedPipeline.entry :=
  [FeedPipeline.Build_entry (Some (str_of "L1")) (Some (str_of "A"))
     (Some (str_of "2024-01-02")) None;
   FeedPipeline.Build_entry (Some (str_of "L1")) (Some (str_of "B"))
     (Some (str_of "2024-01-01")) None;
   FeedPipeline.Build_entry (Some (str_of "L2")) (Some (str_of "Celtics win"))
     (Some (str_of "2024-01-03")) (Some (str_of "Final score"))].

(** A world in which every page request and every completion call fails. *)
Definition sample_services : FeedPipeline.services :=
  FeedPipeline.Build_services ascii_lower
    (λ _, FeedPipeline.Feed sample_entries)
    (λ _, ContentExtractor.HttpFailure)
    (λ _ _, Summarizer.CallRaises)
    (λ _, str_of "2024-01-04T00:00:00+00:00").

Definition sample_article (url date : string) : FeedPipeline.article :=
  FeedPipeline.Build_article (str_of "A") (str_of url) (str_of date)
    (Summarizer.fallback_error (str_of "A")) (str_of "NEWS")
    (str_of "2024-01-04T00:00:00+00:00").

(** A parsed history with one article, linked [L1]. *)
Definition sample_history : Persistence.history :=
  Persistence.Build_history (Some [sample_article "L1" "2024-01-02"])
    (Some (str_of "2024-01-03T00:00:00+00:00")) (Some 1%nat).

(** Two feeds: the first raises at its first entry, which has no link, so
    its second entry is never reached; the second feed repeats that link. *)
Definition broken_services : FeedPipeline.services :=
  FeedPipeline.Build_services ascii_lower
    (λ u, if str_eqb u (str_of "feed1")
          then FeedPipeline.Feed
                 [FeedPipeline.Build_entry None (Some (str_of "X")) None None;
                  FeedPipeline.Build_entry (Some (str_of "L1"))
                    (Some (str_of "Skipped")) None None]
          else FeedPipeline.Feed
                 [FeedPipeline.Build_entry (Some (str_of "L1"))
                    (Some (str_of "Kept")) None None])
    (λ _, ContentExtractor.HttpFailure)
    (λ _ _, Summarizer.CallRaises)
    (λ _, str_of "2024-01-04T00:00:00+00:00").

(** *** Notions for the further properties *)

(** Every character of the string is whitespace. *)
Definition all_space (s : str) : Prop := Forall (λ c, isspace c = true) s.

(** The string neither starts nor ends with whitespace. *)
Definition trimmed (s : str) : Prop :=
  (∀ c, head s = Some c → isspace c = false) ∧
  (∀ c, last s = Some c → isspace c = false).

(** The number of newline characters of a string. *)
Definition newlines (s : str) : nat :=
  length (filter (λ c, c = 10) (s : list N)).

(** The node is not one of the elements removed before extraction. *)
Definition kept (n : node) : Prop :=
  match n with
  | Html.Elem tag _ _ => is_unwanted tag = false
  | _ => True
  end.

(** The node is matched by none of the four selectors and is no paragraph. *)
Definition unmatched (n : node) : Prop :=
  Forall (λ sel, matches sel n = false) ContentExtractor.selectors ∧
  matches (ByTag (str_of "p")) n = false.

(** A page whose text sits in a [div] and in no paragraph. *)
Definition page_plain : list node :=
  [Html.Elem (str_of "div") [str_of "story"] [Html.Text (str_of "Hello")]].

(** The article has three bullets and one of the six labels. *)
Definition well_built (a : FeedPipeline.article) : Prop :=
  length (FeedPipeline.summary a) = 3%nat ∧
  ∃ h, FeedPipeline.hookType a = Classifier.label h.

(** The articles built from all the feeds, before the sort and the cap. *)
Definition built (svc : FeedPipeline.services) (feed_urls : list str)
    : list FeedPipeline.article :=
  FeedPipeline.all_articles
    (foldl (FeedPipeline.process_feed svc) FeedPipeline.initial feed_urls).

(** What the loop keeps true when no entry makes it raise: every link seen,
    and every entry gone through, has its article. *)
Definition links_covered (st : FeedPipeline.state) (src : list FeedPipeline.entry) : Prop :=
  (∀ l, l ∈ FeedPipeline.seen_urls st →
        ∃ a, a ∈ FeedPipeline.all_articles st ∧ FeedPipeline.link a = l) ∧
  (∀ e, e ∈ src →
        ∃ a, a ∈ FeedPipeline.all_articles st ∧
             FeedPipeline.e_link e = Some (FeedPipeline.link a)).

(** What the loop keeps true of the entries [src] its body has run on: an
    entry with a link and a title that is the first of [src] with its link
    has its article, and every link seen comes from an entry of [src]. *)
Definition first_builds (st : FeedPipeline.state) (src : list FeedPipeline.entry) : Prop :=
  (∀ pre e post, src = pre ++ e :: post →
     Forall (λ e', FeedPipeline.e_link e' ≠ FeedPipeline.e_link e) pre →
     is_Some (FeedPipeline.e_link e) → is_Some (FeedPipeline.e_title e) →
     ∃ a, a ∈ FeedPipeline.all_articles st ∧ made_from a e) ∧
  (∀ l, l ∈ FeedPipeline.seen_urls st →
     ∃ e, e ∈ src ∧ FeedPipeline.e_link e = Some l).

(** What a node shows of itself: its string, or its tag and classes. *)
Definition node_label (n : node) : str + str + str * list str :=
  match n with
  | Html.Text s => inl (inl s)
  | Html.Comment s => inl (inr s)
  | Html.Elem tag classes _ => inr (tag, classes)
  end.

(** The nodes of a document that are neither an unwanted element nor below
    one, in document order. *)
Fixpoint visible (n : node) : list node :=
  match n with
  | Html.Elem tag _ children =>
      if is_unwanted tag then [] else n :: flat_map visible children
  | _ => [n]
  end.

(** A page with a [nav] holding a link, inside a [div] that also holds
    text. *)
Definition page_with_nav : list node :=
  [Html.Elem (str_of "div") []
     [Html.Elem (str_of "nav") [] [Html.Text (str_of "Menu")];
      Html.Text (str_of "Story")]].

(** The sample world, except that the feed [down] does not parse. *)
Definition failing_services : FeedPipeline.services :=
  FeedPipeline.Build_services ascii_lower
    (λ u, if str_eqb u (str_of "down") then FeedPipeline.FeedRaises
          else FeedPipeline.Feed sample_entries)
    (λ _, ContentExtractor.HttpFailure)
    (λ _ _, Summarizer.CallRaises)
    (λ _, str_of "2024-01-04T00:00:00+00:00").

(** * Properties *)

(** ** Strings *)

Lemma startswith_spec (s prefix : str) :
  startswith s prefix = true ↔ ∃ post, s = prefix ++ post.
Proof.
  revert s. induction prefix as [|p prefix IH]; intros s; simpl.
  - split; [intros _; by exists s | by destruct s].
  - destruct s as [|c s]; simpl.
    + split; [done | intros [post H]; discriminate H].
    + rewrite andb_true_iff, N.eqb_eq, IH. split.
      * intros [-> [post ->]]. by exists post.
      * intros [post H]. injection H as -> ->. eauto.
Qed.

Lemma contains_spec (s word : str) :
  contains s word = true ↔ substring_of word s.
Proof.
  unfold substring_of. induction s as [|c s IH]; cbn [contains].
  - rewrite orb_false_r, startswith_spec. split.
    + intros [post H]. by exists [], post.
    + intros (pre & post & H). symmetry in H.
      apply app_eq_nil in H as [-> H]. exists post. by rewrite H.
  - rewrite orb_true_iff, startswith_spec, IH. split.
    + intros [[post H] | (pre & post & H)].
      * by exists [], post.
      * exists (c :: pre), post. by rewrite H.
    + intros (pre & post & H). destruct pre as [|c' pre].
      * left. by exists post.
      * right. injection H as _ H. by exists pre, post.
Qed.

Lemma any_in_spec (text : str) (words : list str) :
  Classifier.any_in text words = true ↔ mentions text words.
Proof.
  unfold Classifier.any_in, mentions. rewrite existsb_exists. split.
  - intros (w & Hin & Hc). exists w. split; [by apply list_elem_of_In |].
    by apply contains_spec.
  - intros (w & Hin & Hc). exists w. split; [by apply list_elem_of_In |].
    by apply contains_spec.
Qed.

Lemma any_in_false (text : str) (words : list str) :
  Classifier.any_in text words = false ↔ ¬ mentions text words.
Proof.
  rewrite <- any_in_spec. by destruct (Classifier.any_in text words).
Qed.

Lemma ascii_lower_is_ascii (s : str) : is_ascii s → is_ascii (ascii_lower s).
Proof.
  unfold is_ascii, ascii_lower. rewrite Forall_fmap. intros H.
  eapply Forall_impl; [exact H |]. intros c Hc. simpl. unfold ascii_lower_char.
  destruct ((65 <=? c) && (c <=? 90)) eqn:E; [|done].
  apply andb_true_iff in E as [_ E%N.leb_le]. lia.
Qed.

Lemma ascii_lower_char_idemp (c : N) :
  ascii_lower_char (ascii_lower_char c) = ascii_lower_char c.
Proof.
  unfold ascii_lower_char.
  destruct ((65 <=? c) && (c <=? 90)) eqn:E; [|by rewrite E].
  apply andb_true_iff in E as [E1%N.leb_le E2%N.leb_le].
  destruct ((65 <=? c + 32) && (c + 32 <=? 90)) eqn:E'; [|done].
  apply andb_true_iff in E' as [_ E'%N.leb_le]. lia.
Qed.

Lemma ascii_lower_idemp (s : str) : ascii_lower (ascii_lower s) = ascii_lower s.
Proof.
  unfold ascii_lower. rewrite <- list_fmap_compose. apply list_fmap_ext.
  intros _ c _. apply ascii_lower_char_idemp.
Qed.

(** ** Classifier *)

Section ClassifierProps.

Import Classifier.

(** The label of a title and content whose lowercased forms are given, as a
    first-match over the ordered rules. *)
Lemma classify_lowered_first_match (t c : str) :
  let h := classify_lowered t c in
  (mentions t sports_words → h = SPORTS) ∧
  (¬ mentions t sports_words → mentions t transit_words → h = TRANSIT) ∧
  (¬ mentions t sports_words → ¬ mentions t transit_words →
   mentions t politics_words → h = POLITICS) ∧
  (¬ mentions t sports_words → ¬ mentions t transit_words →
   ¬ mentions t politics_words → mentions t weather_words → h = WEATHER) ∧
  (¬ mentions t sports_words → ¬ mentions t transit_words →
   ¬ mentions t politics_words → ¬ mentions t weather_words →
   mentions c local_words → h = LOCAL_IMPACT) ∧
  (¬ mentions t sports_words → ¬ mentions t transit_words →
   ¬ mentions t politics_words → ¬ mentions t weather_words →
   ¬ mentions c local_words → h = NEWS).
Proof.
  simpl. unfold classify_lowered.
  repeat split; intros;
    repeat match goal with
           | H : mentions _ _ |- _ => apply any_in_spec in H; rewrite H
           | H : ¬ mentions _ _ |- _ => apply any_in_false in H; rewrite H
           end; reflexivity.
Qed.

Lemma not_mentions_empty (words : list str) :
  Forall (λ w, w ≠ []) words → ¬ mentions [] words.
Proof.
  intros Hall (w & Hin & pre & post & H).
  rewrite Forall_forall in Hall. apply (Hall w Hin).
  symmetry in H. apply app_eq_nil in H as [_ H]. by apply app_eq_nil in H as [H _].
Qed.

Lemma not_mentions_empty_local : ¬ mentions [] local_words.
Proof. apply not_mentions_empty. by repeat constructor. Qed.

End ClassifierProps.

Section ClassifierClaims.

Import Classifier.

Variable lower : str → str.

Lemma determine_hook_type_str (title content : str) :
  determine_hook_type lower (Some title) (Some content) =
  inr (classify_lowered (lower title) (if truthy content then lower content else [])).
Proof. unfold determine_hook_type. simpl. by destruct (truthy content). Qed.

(** C7.  The classifier is a function of the title and the content.  For
    text arguments it returns a label, and that label is given by the first
    rule that matches, in the order SPORTS, TRANSIT, POLITICS, WEATHER (each
    a keyword occurring in the lowercased title), then LOCAL_IMPACT (a place
    name occurring in the lowercased content), then NEWS.  Titles that differ
    only in the case of their ASCII letters get the same label, and the title
    "Mayor announces storm shelters" is POLITICS whatever the content. *)
Theorem determine_hook_type_priority (title content : str) :
  lower_on_ascii lower →
  ∃ h, determine_hook_type lower (Some title) (Some content) = inr h ∧
    let t := lower title in
    let c := if truthy content then lower content else [] in
    (mentions t sports_words → h = SPORTS) ∧
    (¬ mentions t sports_words → mentions t transit_words → h = TRANSIT) ∧
    (¬ mentions t sports_words → ¬ mentions t transit_words →
     mentions t politics_words → h = POLITICS) ∧
    (¬ mentions t sports_words → ¬ mentions t transit_words →
     ¬ mentions t politics_words → mentions t weather_words → h = WEATHER) ∧
    (¬ mentions t sports_words → ¬ mentions t transit_words →
     ¬ mentions t politics_words → ¬ mentions t weather_words →
     mentions c local_words → h = LOCAL_IMPACT) ∧
    (¬ mentions t sports_words → ¬ mentions t transit_words →
     ¬ mentions t politics_words → ¬ mentions t weather_words →
     ¬ mentions c local_words → h = NEWS) ∧
    (∀ title', is_ascii title → is_ascii title' →
       ascii_lower title' = ascii_lower title →
       determine_hook_type lower (Some title') (Some content) = inr h) ∧
    determine_hook_type lower
      (Some (str_of "Mayor announces storm shelters")) (Some content)
    = inr POLITICS.
Proof.
  intros Hlower. eexists. split; [apply determine_hook_type_str |].
  cbv zeta.
  pose proof (classify_lowered_first_match (lower title)
    (if truthy content then lower content else [])) as H.
  cbv zeta in H. destruct H as (H1 & H2 & H3 & H4 & H5 & H6).
  do 6 (split; [assumption |]). split.
  - intros title' Ht Ht' Heq. rewrite determine_hook_type_str.
    by rewrite (Hlower _ Ht), (Hlower _ Ht'), Heq.
  - rewrite determine_hook_type_str. rewrite Hlower.
    + by vm_compute.
    + unfold is_ascii. apply Forall_forall. intros c Hc.
      apply (proj1 (Forall_forall (λ c, c < 128) _)) with (x := c) in Hc; [done |].
      vm_compute. repeat constructor.
Qed.

(** C10.  With the content absent ([None]) or empty the classifier raises
    nothing and returns the same label in both cases; that label is never
    LOCAL_IMPACT and is decided by the title rules alone, NEWS when none of
    them matches. *)
Theorem determine_hook_type_empty_content (title : str) :
  ∃ h, determine_hook_type lower (Some title) None = inr h ∧
    determine_hook_type lower (Some title) (Some []) = inr h ∧
    h ≠ LOCAL_IMPACT ∧
    let t := lower title in
    (mentions t sports_words → h = SPORTS) ∧
    (¬ mentions t sports_words → mentions t transit_words → h = TRANSIT) ∧
    (¬ mentions t sports_words → ¬ mentions t transit_words →
     mentions t politics_words → h = POLITICS) ∧
    (¬ mentions t sports_words → ¬ mentions t transit_words →
     ¬ mentions t politics_words → mentions t weather_words → h = WEATHER) ∧
    (¬ mentions t sports_words → ¬ mentions t transit_words →
     ¬ mentions t politics_words → ¬ mentions t weather_words → h = NEWS).
Proof.
  exists (classify_lowered (lower title) []). split; [done |]. split; [done |].
  pose proof (classify_lowered_first_match (lower title) []) as H.
  cbv zeta in H. destruct H as (H1 & H2 & H3 & H4 & H5 & H6).
  split.
  - unfold classify_lowered.
    assert (any_in [] local_words = false) as -> by reflexivity.
    by repeat case_match.
  - cbv zeta. do 4 (split; [assumption |]).
    intros. apply H6; try assumption. apply not_mentions_empty_local.
Qed.

End ClassifierClaims.

(** The classifier under the ASCII lowering, at the title of the
    specification's example. *)
Lemma determine_hook_type_priority_witness :
  ∃ h, Classifier.determine_hook_type ascii_lower
         (Some (str_of "Mayor announces storm shelters"))
         (Some (str_of "Shelters open across Boston")) = inr h ∧
       h = Classifier.POLITICS.
Proof.
  destruct (determine_hook_type_priority ascii_lower
              (str_of "Mayor announces storm shelters")
              (str_of "Shelters open across Boston"))
    as (h & Hh & _ & _ & _ & _ & _ & _ & _ & Hex).
  - intros s _. reflexivity.
  - exists h. split; [exact Hh |]. rewrite Hh in Hex. by injection Hex.
Defined.

(** ** Summarizer *)

Section SummarizerClaims.

Import Summarizer.

Lemma fallback_parse_length (title : str) : length (fallback_parse title) = 3%nat.
Proof. reflexivity. Qed.

Lemma fallback_error_length (title : str) : length (fallback_error title) = 3%nat.
Proof. reflexivity. Qed.

(** C1.  Whatever the completion service does with the prompt, the summary
    has exactly three bullets.  When the call gives a first choice with a
    text, the text is stripped and parsed: with three or more bullets parsed
    the result is the first three of them in order, with fewer it is the
    fixed triple for a failed parse.  When the call raises, gives no choice
    or gives a choice without text, the result is the fixed triple for a
    failed call. *)
Theorem create_summary_three_bullets (chat : str → completion)
    (title content url : str) :
  let result := create_summary chat title content url in
  length result = 3%nat ∧
  match chat (prompt title content) with
  | Response (Some text :: _) =>
      let bullets := parse_bullets (strip text) in
      (3 ≤ length bullets → result = take 3 bullets)%nat ∧
      (length bullets < 3 → result = fallback_parse title)%nat
  | _ => result = fallback_error title
  end.
Proof.
  cbv zeta. unfold create_summary.
  destruct (chat (prompt title content)) as [|[|[text|] choices]]; simpl;
    try (split; reflexivity).
  case_bool_decide as Hlen.
  - split; [rewrite length_take; lia |]. split; [done | lia].
  - split; [reflexivity |]. split; [lia | done].
Qed.

End SummarizerClaims.

(** ** ContentExtractor *)

Section ContentExtractorClaims.

Import ContentExtractor.

Lemma truthy_nonempty (s : str) : truthy s = true ↔ s ≠ [].
Proof. by destruct s. Qed.

Lemma truthy_false (s : str) : truthy s = false ↔ s = [].
Proof. by destruct s. Qed.

(** The loop over the selectors stops at the first one that finds an
    element. *)
Lemma try_selectors_first (pre post : list selector) (sel : selector)
    (soup : list node) (element : node) :
  Forall (λ s, select_one s soup = None) pre →
  select_one sel soup = Some element →
  try_selectors (pre ++ sel :: post) soup = Some (get_text element).
Proof.
  intros Hpre Hsel. induction Hpre as [|s pre Hs _ IH]; simpl.
  - by rewrite Hsel.
  - by rewrite Hs.
Qed.

Lemma try_selectors_none (sels : list selector) (soup : list node) :
  Forall (λ s, select_one s soup = None) sels →
  try_selectors sels soup = None.
Proof. induction 1 as [|s sels Hs _ IH]; simpl; [done | by rewrite Hs]. Qed.

(** [select_one] finds the first match in document order, or none. *)
Lemma select_one_Some (sel : selector) (soup : list node) (element : node) :
  select_one sel soup = Some element ↔
  ∃ before after, descendants soup = before ++ element :: after ∧
    matches sel element = true ∧
    Forall (λ n, matches sel n = false) before.
Proof.
  unfold select_one. generalize (descendants soup) as l.
  induction l as [|n l IH].
  - split; [done |]. intros (before & after & H & _). by destruct before.
  - rewrite filter_cons. destruct (decide (matches sel n = true)) as [Hn|Hn].
    + simpl. split.
      * intros [= <-]. exists [], l. by split.
      * intros ([|b before] & after & H & Hm & Hb).
        -- by injection H as ->.
        -- injection H as -> _. apply Forall_cons in Hb as [Hb _]. congruence.
    + rewrite IH. apply not_true_is_false in Hn. split.
      * intros (before & after & H & Hm & Hb). exists (n :: before), after.
        rewrite H. split; [done |]. split; [done | by constructor].
      * intros ([|b before] & after & H & Hm & Hb).
        -- injection H as -> _. congruence.
        -- injection H as -> ->. apply Forall_cons in Hb as [_ Hb].
           exists before, after. by split.
Qed.

Lemma select_one_None (sel : selector) (soup : list node) :
  select_one sel soup = None ↔
  Forall (λ n, matches sel n = false) (descendants soup).
Proof.
  unfold select_one. rewrite head_None. generalize (descendants soup) as l.
  induction l as [|n l IH]; [done |].
  rewrite filter_cons, Forall_cons. destruct (decide _) as [Hn|Hn].
  - split; [done |]. intros [H _]. congruence.
  - rewrite IH. apply not_true_is_false in Hn. tauto.
Qed.

(** C8.  The extractor returns nothing exactly when the request fails or
    the text obtained from the page is empty.  Otherwise it returns the
    first 4000 characters of that text, a non-empty string of at most 4000
    characters, whether the text came from a selector or from the
    paragraphs. *)
Theorem fetch_article_content_bounded (response : http_response) :
  (fetch_article_content response = None ↔
     response = HttpFailure ∨
     ∃ soup, response = HttpOk soup ∧ extracted soup = []) ∧
  (∀ text, fetch_article_content response = Some text →
     text ≠ [] ∧ (length text ≤ 4000)%nat ∧
     ∃ soup, response = HttpOk soup ∧ text = take 4000 (extracted soup) ∧
       let soup' := flat_map decompose_unwanted soup in
       (∀ s, try_selectors selectors soup' = Some s → s ≠ [] →
             text = take 4000 s) ∧
       (falsy (try_selectors selectors soup') = true →
             text = take 4000 (paragraph_text soup'))).
Proof.
  destruct response as [|soup]; cbn [fetch_article_content].
  - split; [split; [by left | done] | done].
  - destruct (truthy (extracted soup)) eqn:E.
    + apply truthy_nonempty in E. split.
      * split; [done |]. intros [H | (soup' & [= <-] & H)]; done.
      * intros text [= <-]. split.
        { destruct (extracted soup); [done | by simpl]. }
        split; [rewrite length_take; lia |].
        exists soup. split; [done |]. split; [done |]. cbv zeta.
        unfold extracted. split.
        -- intros s Hs Hne. rewrite Hs. simpl.
           by destruct s.
        -- by intros ->.
    + apply truthy_false in E. split; [| done].
      split; [| done]. intros _. right. by exists soup.
Qed.

(** C6, as stated, fails twice.  The code does not look for the class
    [content-body], so on the first page it takes the [article]; and on the
    second page a selector matches, yet the paragraphs supply the text. *)
Lemma fetch_article_content_selectors_counterexample :
  (extracted page_content_body = str_of "B" ∧
   spec_extracted page_content_body = str_of "A") ∧
  (select_one (ByClass (str_of "article-body")) page_empty_block
     = Some (Elem (str_of "div") [str_of "article-body"] []) ∧
   extracted page_empty_block = str_of "P" ∧
   spec_extracted page_empty_block = []).
Proof. by vm_compute. Qed.

(** C6, amended.  The selectors are tried in the order [.entry-content],
    [.article-body], [.post-content], [article] on the page without its
    unwanted elements.  The first selector that matches any element decides:
    the first matching element in document order supplies its text when that
    text is not empty.  When that text is empty, or when no selector matches,
    the text is that of the first 10 paragraph elements joined by spaces. *)
Theorem fetch_article_content_selectors (soup : list node) :
  let soup' := flat_map decompose_unwanted soup in
  let paragraphs :=
    filter (λ n, matches (ByTag (str_of "p")) n = true) (descendants soup') in
  let fallback := join (str_of " ") (get_text <$> take 10 paragraphs) in
  selectors =
    [ByClass (str_of "entry-content"); ByClass (str_of "article-body");
     ByClass (str_of "post-content"); ByTag (str_of "article")] ∧
  (∀ pre sel post before element after,
     selectors = pre ++ sel :: post →
     Forall (λ s, Forall (λ n, matches s n = false) (descendants soup')) pre →
     descendants soup' = before ++ element :: after →
     matches sel element = true →
     Forall (λ n, matches sel n = false) before →
     (get_text element ≠ [] → extracted soup = get_text element) ∧
     (get_text element = [] → extracted soup = fallback)) ∧
  (Forall (λ s, Forall (λ n, matches s n = false) (descendants soup')) selectors →
     extracted soup = fallback).
Proof.
  cbv zeta. split; [reflexivity |]. split.
  - intros pre sel post before element after Hsels Hpre Hdoc Hm Hbefore.
    assert (try_selectors selectors (flat_map decompose_unwanted soup)
            = Some (get_text element)) as Htry.
    { rewrite Hsels. apply try_selectors_first.
      - eapply Forall_impl; [exact Hpre |]. intros s Hs. by apply select_one_None.
      - apply select_one_Some. by exists before, after. }
    unfold extracted. rewrite Htry. simpl. split.
    + intros Hne. apply truthy_nonempty in Hne. by rewrite Hne.
    + intros He. rewrite He. reflexivity.
  - intros Hnone. unfold extracted. rewrite try_selectors_none; [done |].
    eapply Forall_impl; [exact Hnone |]. intros s Hs. by apply select_one_None.
Qed.

End ContentExtractorClaims.

(** ** FeedPipeline *)

(** *** The order on strings *)

Lemma str_le_total (a b : str) : str_le a b = false → str_le b a = true.
Proof.
  revert b. induction a as [|x a IH]; intros [|y b]; simpl; try done.
  rewrite orb_false_iff, andb_false_iff, N.ltb_ge, N.eqb_neq.
  intros [Hxy H]. rewrite orb_true_iff, andb_true_iff, N.ltb_lt, N.eqb_eq.
  destruct (decide (x = y)) as [->|Hne].
  - right. split; [done |]. apply IH. by destruct H.
  - left. lia.
Qed.

Lemma str_le_trans (a b c : str) :
  str_le a b = true → str_le b c = true → str_le a c = true.
Proof.
  revert b c. induction a as [|x a IH]; intros [|y b] [|z c]; simpl; try done.
  rewrite !orb_true_iff, !andb_true_iff, !N.ltb_lt, !N.eqb_eq.
  intros [Hxy | [-> Hab]] [Hyz | [-> Hbc]].
  - left. lia.
  - by left.
  - by left.
  - right. split; [done |]. by apply (IH b).
Qed.

Lemma str_le_refl (a : str) : str_le a a = true.
Proof.
  induction a as [|x a IH]; simpl; [done |].
  by rewrite N.eqb_refl, IH, orb_true_r.
Qed.

(** *** The sort *)

Section SortProps.

Import FeedPipeline.

Lemma insert_desc_perm (a : article) (l : list article) :
  insert_desc a l ≡ₚ a :: l.
Proof.
  induction l as [|b l IH]; simpl; [done |].
  destruct (str_lt (pubDate a) (pubDate b)); [|done].
  by rewrite IH, Permutation_swap.
Qed.

Lemma sort_by_pubDate_desc_perm (l : list article) :
  sort_by_pubDate_desc l ≡ₚ l.
Proof.
  induction l as [|a l IH]; simpl; [done |].
  by rewrite insert_desc_perm, IH.
Qed.

Lemma insert_desc_sorted (a : article) (l : list article) :
  StronglySorted pubDate_desc l → StronglySorted pubDate_desc (insert_desc a l).
Proof.
  induction 1 as [|b l Hl IH Hb]; simpl.
  - by repeat constructor.
  - unfold str_lt. destruct (str_le (pubDate b) (pubDate a)) eqn:E; simpl.
    + constructor; [by constructor |]. constructor; [exact E |].
      eapply Forall_impl; [exact Hb |]. intros c Hc. unfold pubDate_desc in *.
      by apply (str_le_trans _ (pubDate b)).
    + constructor; [exact IH |].
      rewrite insert_desc_perm. constructor; [|exact Hb].
      by apply str_le_total.
Qed.

Lemma sort_by_pubDate_desc_sorted (l : list article) :
  StronglySorted pubDate_desc (sort_by_pubDate_desc l).
Proof.
  induction l as [|a l IH]; simpl; [constructor | by apply insert_desc_sorted].
Qed.

Lemma StronglySorted_take {A} (R : A → A → Prop) (n : nat) (l : list A) :
  StronglySorted R l → StronglySorted R (take n l).
Proof.
  intros H. rewrite <- (take_drop n l) in H.
  by apply StronglySorted_app_1_l in H.
Qed.

(** C2.  For every state of the outside world and every list of feed
    addresses (the configured one in particular), the articles returned are
    at most 12, and they stand in descending order of [pubDate] compared as
    strings: each one's [pubDate] is at least that of every later one. *)
Theorem fetch_and_process_feeds_sorted (svc : services) (feed_urls : list str) :
  let out := fetch_and_process svc feed_urls in
  (length out ≤ 12)%nat ∧
  StronglySorted pubDate_desc out ∧
  (length (fetch_and_process_feeds svc) ≤ 12)%nat ∧
  StronglySorted pubDate_desc (fetch_and_process_feeds svc).
Proof.
  assert (∀ urls, (length (fetch_and_process svc urls) ≤ 12)%nat ∧
                  StronglySorted pubDate_desc (fetch_and_process svc urls)) as H.
  { intros urls. unfold fetch_and_process, MAX_ARTICLES. split.
    - rewrite length_take. lia.
    - apply StronglySorted_take, sort_by_pubDate_desc_sorted. }
  cbv zeta. unfold fetch_and_process_feeds.
  destruct (H feed_urls), (H RSS_FEEDS). done.
Qed.

End SortProps.

(** *** The loop over the entries *)

Section LoopProps.

Import FeedPipeline.

Variable svc : services.

Lemma links_tracked_mono (st : state) (src src' : list entry) :
  src ⊆ src' → links_tracked st src → links_tracked st src'.
Proof.
  intros Hsub (Hnd & Hseen & Hsrc). split; [done |]. split; [done |].
  intros a Ha. destruct (Hsrc a Ha) as (e & He & Hmade). exists e. split; [|done].
  by apply Hsub.
Qed.

(** The three outcomes of the loop body. *)
Lemma process_entry_cases (st : state) (e : entry) :
  (process_entry svc st e = (st, true) ∧ e_link e = None) ∨
  (∃ url, e_link e = Some url ∧ url ∈ seen_urls st ∧
          process_entry svc st e = (st, false)) ∨
  (∃ url, e_link e = Some url ∧ (url ∉ seen_urls st) ∧ e_title e = None ∧
          process_entry svc st e =
            (Build_state (all_articles st) ({[url]} ∪ seen_urls st), true)) ∨
  (∃ url a, e_link e = Some url ∧ (url ∉ seen_urls st) ∧ made_from a e ∧
          process_entry svc st e =
            (Build_state (all_articles st ++ [a]) ({[url]} ∪ seen_urls st),
             false)).
Proof.
  unfold process_entry. destruct (e_link e) as [url|] eqn:Hlink; [|by left].
  right. case_bool_decide as Hseen; [left; by exists url |].
  right. destruct (e_title e) as [ttl|] eqn:Htitle; [right | left; by exists url].
  rewrite determine_hook_type_str. eexists url, _. split; [done |].
  split; [done |]. split; [|reflexivity]. by repeat split.
Qed.

Lemma process_entry_tracked (st : state) (src : list entry) (e : entry) :
  links_tracked st src → links_tracked (process_entry svc st e).1 (src ++ [e]).
Proof.
  intros Hinv.
  assert (links_tracked st (src ++ [e])) as Hmono.
  { eapply links_tracked_mono; [|exact Hinv]. set_solver. }
  destruct (process_entry_cases st e)
    as [[-> _] | [(url & _ & _ & ->) | [(url & _ & Hnew & _ & ->)
        | (url & a & Hlink & Hnew & Hmade & ->)]]]; simpl; try done.
  - destruct Hmono as (Hnd & Hseen & Hsrc). split; [done |]. split; [|done].
    simpl. intros a Ha. specialize (Hseen a Ha). set_solver.
  - destruct Hmono as (Hnd & Hseen & Hsrc).
    assert (link a = url) as Ha.
    { destruct Hmade as (H & _). rewrite Hlink in H. by injection H. }
    split; [|split]; simpl.
    + rewrite fmap_app. apply NoDup_app. split; [done |]. split.
      * intros x Hx Hx'. simpl in Hx'. apply list_elem_of_singleton in Hx' as ->.
        apply list_elem_of_fmap in Hx as (a' & Ha' & Hin).
        specialize (Hseen a' Hin). congruence.
      * simpl. apply NoDup_singleton.
    + intros a' [Hin | ->%list_elem_of_singleton]%elem_of_app.
      * specialize (Hseen a' Hin). set_solver.
      * set_solver.
    + intros a' [Hin | ->%list_elem_of_singleton]%elem_of_app.
      * by apply Hsrc.
      * exists e. split; [set_solver | done].
Qed.

Lemma process_entries_tracked (st : state) (src entries : list entry) :
  links_tracked st src →
  links_tracked (process_entries svc st entries) (src ++ entries).
Proof.
  revert st src. induction entries as [|e entries IH]; intros st src Hinv; simpl.
  - by rewrite app_nil_r.
  - pose proof (process_entry_tracked st src e Hinv) as H.
    replace (src ++ e :: entries) with ((src ++ [e]) ++ entries)
      by (by rewrite <- (assoc_L (++))).
    destruct (process_entry svc st e) as [st' b]. simpl in H. destruct b.
    + eapply links_tracked_mono; [|exact H].
      intros x Hx. apply elem_of_app. by left.
    + by apply IH.
Qed.

Lemma considered_cons (u : str) (urls : list str) :
  considered svc (u :: urls) = feed_entries svc u ++ considered svc urls.
Proof. reflexivity. Qed.

Lemma process_feed_tracked (st : state) (src : list entry) (u : str) :
  links_tracked st src →
  links_tracked (process_feed svc st u) (src ++ feed_entries svc u).
Proof.
  intros Hinv. unfold process_feed, feed_entries.
  destruct (parse svc u) as [|es].
  - by rewrite app_nil_r.
  - by apply process_entries_tracked.
Qed.

Lemma feeds_tracked (st : state) (src : list entry) (urls : list str) :
  links_tracked st src →
  links_tracked (foldl (process_feed svc) st urls) (src ++ considered svc urls).
Proof.
  revert st src. induction urls as [|u urls IH]; intros st src Hinv.
  - simpl. by rewrite app_nil_r.
  - rewrite considered_cons, (assoc_L (++)). cbn [foldl].
    apply IH. by apply process_feed_tracked.
Qed.

(** *** First seen wins *)

Lemma first_seen_snoc (src : list entry) (e : entry) (a : article) :
  first_seen src a → first_seen (src ++ [e]) a.
Proof.
  intros (pre & e0 & post & -> & Hmade & Hpre).
  exists pre, e0, (post ++ [e]). split; [|done]. by rewrite <- (assoc_L (++)).
Qed.

Lemma seen_urls_grow (seen : gset str) (src : list entry) (e : entry) (url : str) :
  (∀ e' l, e' ∈ src → e_link e' = Some l → l ∈ seen) →
  e_link e = Some url →
  ∀ e' l, e' ∈ src ++ [e] → e_link e' = Some l → l ∈ {[url]} ∪ seen.
Proof.
  intros Hsrc Hlink e' l [He' | ->%list_elem_of_singleton]%elem_of_app Hl.
  - apply elem_of_union. right. by apply (Hsrc e').
  - apply elem_of_union. left. apply elem_of_singleton. congruence.
Qed.

Lemma process_entry_first_seen (st : state) (src : list entry) (e : entry) :
  first_seen_wins st src →
  first_seen_wins (process_entry svc st e).1 (src ++ [e]).
Proof.
  intros [Harts Hsrc].
  assert (∀ a, a ∈ all_articles st → first_seen (src ++ [e]) a) as Harts'.
  { intros a Ha. by apply first_seen_snoc, Harts. }
  destruct (process_entry_cases st e)
    as [[-> Hnone] | [(url & Hlink & Hseen & ->) | [(url & Hlink & _ & _ & ->)
        | (url & a & Hlink & Hnew & Hmade & ->)]]]; simpl.
  - split; [done |].
    intros e' l [He' | ->%list_elem_of_singleton]%elem_of_app Hl.
    + by apply (Hsrc e').
    + congruence.
  - split; [done |].
    intros e' l [He' | ->%list_elem_of_singleton]%elem_of_app Hl.
    + by apply (Hsrc e').
    + congruence.
  - split; [done |]. by apply seen_urls_grow.
  - split; [|by apply seen_urls_grow]. simpl.
    intros a' [Hin | ->%list_elem_of_singleton]%elem_of_app; [by apply Harts' |].
    exists src, e, []. split; [done |]. split; [done |].
    apply Forall_forall. intros e' He'. rewrite Hlink. intros Hl'.
    by specialize (Hsrc e' url He' Hl').
Qed.

Lemma process_entries_first_seen (st : state) (src entries : list entry) :
  first_seen_wins st src →
  first_seen_wins (process_entries svc st entries)
                  (src ++ visited_in svc st entries).
Proof.
  revert st src. induction entries as [|e entries IH]; intros st src Hinv; simpl.
  - by rewrite app_nil_r.
  - pose proof (process_entry_first_seen st src e Hinv) as H.
    destruct (process_entry svc st e) as [st' b]. simpl in H. destruct b.
    + exact H.
    + rewrite cons_middle, (assoc_L (++)). by apply IH.
Qed.

Lemma feeds_first_seen (st : state) (src : list entry) (urls : list str) :
  first_seen_wins st src →
  first_seen_wins (foldl (process_feed svc) st urls) (src ++ visited svc st urls).
Proof.
  revert st src. induction urls as [|u urls IH]; intros st src Hinv.
  - simpl. by rewrite app_nil_r.
  - cbn [foldl visited]. rewrite (assoc_L (++)). apply IH.
    unfold process_feed, feed_entries. destruct (parse svc u) as [|es].
    + simpl. by rewrite app_nil_r.
    + by apply process_entries_first_seen.
Qed.

(** *** Entries that do not make the loop raise *)

Lemma process_entry_well_formed (st : state) (e : entry) :
  well_formed e → (process_entry svc st e).2 = false.
Proof.
  intros [[l Hl] [t Ht]].
  destruct (process_entry_cases st e)
    as [[_ Hnone] | [(url & _ & _ & ->) | [(url & _ & _ & Hnone & _)
        | (url & a & _ & _ & _ & ->)]]]; try done; congruence.
Qed.

Lemma visited_in_well_formed (st : state) (entries : list entry) :
  Forall well_formed entries → visited_in svc st entries = entries.
Proof.
  revert st. induction entries as [|e entries IH]; intros st Hwf; [done |].
  apply Forall_cons in Hwf as [He Hwf]. simpl.
  pose proof (process_entry_well_formed st e He) as H.
  destruct (process_entry svc st e) as [st' b]. simpl in H. subst b.
  by rewrite IH.
Qed.

Lemma visited_well_formed (st : state) (urls : list str) :
  Forall well_formed (considered svc urls) →
  visited svc st urls = considered svc urls.
Proof.
  revert st. induction urls as [|u urls IH]; intros st Hwf; [done |].
  rewrite considered_cons in *. apply Forall_app in Hwf as [Hu Hwf].
  cbn [visited]. by rewrite visited_in_well_formed, IH.
Qed.

(** *** The first occurrence builds its article *)

Lemma snoc_split {A} (src pre post : list A) (e e0 : A) :
  src ++ [e] = pre ++ e0 :: post →
  (post = [] ∧ pre = src ∧ e0 = e) ∨
  (∃ post', post = post' ++ [e] ∧ src = pre ++ e0 :: post').
Proof.
  destruct post as [|x post _] using rev_ind.
  - intros [-> ->]%app_inj_tail. by left.
  - rewrite app_comm_cons, (assoc_L (++)).
    intros [-> ->]%app_inj_tail. right. by exists post.
Qed.

Lemma process_entry_first_builds (st : state) (src : list entry) (e : entry) :
  first_builds st src →
  first_builds (process_entry svc st e).1 (src ++ [e]).
Proof.
  intros [Hbuilt Hseen].
  destruct (process_entry_cases st e)
    as [[-> Hnone] | [(url & Hlink & Hin & ->) | [(url & Hlink & _ & Hnone & ->)
        | (url & a & Hlink & Hnew & Hmade & ->)]]]; simpl.
  - split.
    + intros pre e0 post [(-> & -> & ->) | (post' & -> & ->)]%snoc_split
        Hpre [l Hl] Ht; [congruence | by apply (Hbuilt pre e0 post')].
    + intros l Hl. destruct (Hseen l Hl) as (e' & He' & Hl').
      exists e'. split; [apply elem_of_app; by left | done].
  - split.
    + intros pre e0 post [(-> & -> & ->) | (post' & -> & ->)]%snoc_split
        Hpre Hl Ht; [| by apply (Hbuilt pre e0 post')].
      destruct (Hseen url Hin) as (e' & He' & Hl').
      apply (proj1 (Forall_forall _ _) Hpre) in He'. congruence.
    + intros l Hl. destruct (Hseen l Hl) as (e' & He' & Hl').
      exists e'. split; [apply elem_of_app; by left | done].
  - split.
    + intros pre e0 post [(-> & -> & ->) | (post' & -> & ->)]%snoc_split
        Hpre Hl [t Ht]; [congruence | by apply (Hbuilt pre e0 post')].
    + intros l [->%elem_of_singleton | Hl]%elem_of_union.
      * exists e. split; [apply elem_of_app; right; by left | done].
      * destruct (Hseen l Hl) as (e' & He' & Hl').
        exists e'. split; [apply elem_of_app; by left | done].
  - split.
    + intros pre e0 post [(-> & -> & ->) | (post' & -> & ->)]%snoc_split
        Hpre Hl Ht.
      * exists a. split; [apply elem_of_app; right; by left | done].
      * destruct (Hbuilt pre e0 post' eq_refl Hpre Hl Ht) as (a' & Ha' & Hm).
        exists a'. split; [apply elem_of_app; by left | done].
    + intros l [->%elem_of_singleton | Hl]%elem_of_union.
      * exists e. split; [apply elem_of_app; right; by left | done].
      * destruct (Hseen l Hl) as (e' & He' & Hl').
        exists e'. split; [apply elem_of_app; by left | done].
Qed.

Lemma process_entries_first_builds (st : state) (src entries : list entry) :
  first_builds st src →
  first_builds (process_entries svc st entries)
               (src ++ visited_in svc st entries).
Proof.
  revert st src. induction entries as [|e entries IH]; intros st src Hinv; simpl.
  - by rewrite app_nil_r.
  - pose proof (process_entry_first_builds st src e Hinv) as H.
    destruct (process_entry svc st e) as [st' b]. simpl in H. destruct b.
    + exact H.
    + rewrite cons_middle, (assoc_L (++)). by apply IH.
Qed.

Lemma feeds_first_builds (st : state) (src : list entry) (urls : list str) :
  first_builds st src →
  first_builds (foldl (process_feed svc) st urls) (src ++ visited svc st urls).
Proof.
  revert st src. induction urls as [|u urls IH]; intros st src Hinv.
  - simpl. by rewrite app_nil_r.
  - cbn [foldl visited]. rewrite (assoc_L (++)). apply IH.
    unfold process_feed, feed_entries. destruct (parse svc u) as [|es].
    + simpl. by rewrite app_nil_r.
    + by apply process_entries_first_builds.
Qed.

End LoopProps.

Section PipelineClaims.

Import FeedPipeline.

Variable svc : services.

Lemma elem_of_take_inv {A} (n : nat) (l : list A) (x : A) :
  x ∈ take n l → x ∈ l.
Proof.
  intros H. rewrite <- (take_drop n l). apply elem_of_app. by left.
Qed.

Lemma NoDup_take {A} (n : nat) (l : list A) : NoDup l → NoDup (take n l).
Proof.
  intros H. rewrite <- (take_drop n l) in H. by apply NoDup_app in H as [H _].
Qed.

Lemma initial_tracked : links_tracked initial [].
Proof.
  split; [constructor |]. split; intros a Ha; by apply elem_of_nil in Ha.
Qed.

Lemma initial_first_seen : first_seen_wins initial [].
Proof. split; [intros a Ha | intros e l He]; by apply elem_of_nil in Ha || apply elem_of_nil in He. Qed.

Lemma elem_of_considered (e : entry) (feed_urls : list str) :
  e ∈ considered svc feed_urls →
  ∃ u entries, u ∈ feed_urls ∧ parse svc u = Feed entries ∧ e ∈ take 15 entries.
Proof.
  unfold considered. rewrite list_elem_of_In, in_flat_map.
  intros (u & Hu & He). exists u. unfold feed_entries in He.
  destruct (parse svc u) as [|entries]; [done |].
  exists entries. by rewrite !list_elem_of_In.
Qed.

Lemma elem_of_output (feed_urls : list str) (a : article) :
  a ∈ fetch_and_process svc feed_urls →
  a ∈ all_articles (foldl (process_feed svc) initial feed_urls).
Proof.
  unfold fetch_and_process. intros H%elem_of_take_inv.
  by rewrite sort_by_pubDate_desc_perm in H.
Qed.

Lemma initial_first_builds : first_builds initial [].
Proof.
  split.
  - intros pre e post H. by destruct pre.
  - intros l Hl. by apply elem_of_empty in Hl.
Qed.

(** C3.  In the articles one run returns no two have the same link.  Each
    of them was built from an entry among the first 15 of a feed that
    parsed, and from the first entry carrying its link among those the loop
    ran on, in the order the feeds are read: a later entry with the same
    link builds nothing.  When every entry among the first 15 of each feed
    has a link and a title, the loop runs on all of them.  Conversely, an
    entry the loop ran on that has a link and a title, and is the first with
    its link, has its article among those built; the articles returned are
    among those built, as many as the smaller of 12 and their number, and
    all of them when at most 12 are built. *)
Theorem fetch_and_process_feeds_dedup (feed_urls : list str) :
  let out := fetch_and_process svc feed_urls in
  NoDup (link <$> out) ∧
  (∀ a, a ∈ out →
     ∃ u entries e, u ∈ feed_urls ∧ parse svc u = Feed entries ∧
       e ∈ take 15 entries ∧ made_from a e) ∧
  (∀ a, a ∈ out → first_seen (visited svc initial feed_urls) a) ∧
  (Forall well_formed (considered svc feed_urls) →
     visited svc initial feed_urls = considered svc feed_urls) ∧
  (∀ pre e post,
     visited svc initial feed_urls = pre ++ e :: post →
     Forall (λ e', e_link e' ≠ e_link e) pre →
     is_Some (e_link e) → is_Some (e_title e) →
     ∃ a, a ∈ built svc feed_urls ∧ made_from a e) ∧
  (∀ a, a ∈ out → a ∈ built svc feed_urls) ∧
  length out = (12 `min` length (built svc feed_urls))%nat ∧
  ((length (built svc feed_urls) ≤ 12)%nat →
     ∀ a, a ∈ built svc feed_urls → a ∈ out).
Proof.
  cbv zeta.
  destruct (feeds_tracked svc initial [] feed_urls initial_tracked)
    as (Hnd & _ & Hsrc). rewrite app_nil_l in Hsrc.
  split; [|split; [|split; [|split; [|split; [|split; [|split]]]]]].
  - unfold fetch_and_process. rewrite fmap_take. apply NoDup_take.
    by rewrite sort_by_pubDate_desc_perm.
  - intros a Ha%elem_of_output. destruct (Hsrc a Ha) as (e & He & Hmade).
    destruct (elem_of_considered e feed_urls He) as (u & entries & Hu & Hp & Hin).
    by exists u, entries, e.
  - intros a Ha%elem_of_output.
    destruct (feeds_first_seen svc initial [] feed_urls initial_first_seen)
      as [Hfirst _].
    rewrite app_nil_l in Hfirst. by apply Hfirst.
  - apply visited_well_formed.
  - destruct (feeds_first_builds svc initial [] feed_urls initial_first_builds)
      as [Hbuilt _].
    rewrite app_nil_l in Hbuilt. exact Hbuilt.
  - apply elem_of_output.
  - unfold fetch_and_process, MAX_ARTICLES.
    by rewrite length_take, sort_by_pubDate_desc_perm.
  - intros Hlen a Ha. unfold fetch_and_process, MAX_ARTICLES.
    rewrite take_ge.
    + by rewrite sort_by_pubDate_desc_perm.
    + by rewrite sort_by_pubDate_desc_perm.
Qed.

End PipelineClaims.

(** ** Persistence *)

Section PersistenceClaims.

Import FeedPipeline Persistence.

Lemma NoDup_fmap_filter {A B} (f : A → B) (P : A → Prop)
    `{!∀ x, Decision (P x)} (l : list A) :
  NoDup (f <$> l) → NoDup (f <$> filter P l).
Proof.
  induction l as [|x l IH]; [done |].
  rewrite fmap_cons, NoDup_cons, filter_cons. intros [Hx Hl].
  destruct (decide (P x)); [|by apply IH].
  rewrite fmap_cons, NoDup_cons. split; [|by apply IH].
  intros (y & Hy & Hin%list_elem_of_filter)%list_elem_of_fmap.
  apply Hx. apply list_elem_of_fmap. exists y. by destruct Hin.
Qed.

(** The set of links in the code holds the links of the history's
    articles. *)
Lemma new_unique_spec (arts : list article) (h : history) :
  new_unique arts h = filter (λ a, link a ∉ link <$> get_articles h) arts.
Proof.
  unfold new_unique. apply list_filter_iff. intros a.
  by rewrite elem_of_list_to_set.
Qed.

Lemma merged_NoDup (arts : list article) (h : history) :
  NoDup (link <$> arts) → NoDup (link <$> get_articles h) →
  NoDup (link <$> take 50 (new_unique arts h ++ get_articles h)).
Proof.
  intros Harts Hprior. rewrite fmap_take. apply NoDup_take.
  rewrite fmap_app. apply NoDup_app. rewrite new_unique_spec.
  split; [by apply NoDup_fmap_filter |]. split; [|done].
  intros x (a & -> & [Ha _]%list_elem_of_filter)%list_elem_of_fmap. done.
Qed.

(** C4.  When the history is read (the file is missing, or it parses), the
    save does not raise and writes a history whose articles are the input
    articles with a link not in the prior history, followed by the prior
    history, cut to the first 50.  The result has at most 50 entries; if
    neither the input nor the prior history repeats a link, neither does the
    result.  The history is written, with the new time, also when no input
    article is new. *)
Theorem save_data_merge (current_time : str) (arts : list article)
    (fs : files) (h : history) :
  load_history (news_history_json fs) = inr h →
  let prior := default [] (hist_articles h) in
  let fresh := filter (λ a, link a ∉ link <$> prior) arts in
  ∃ fs' h' merged,
    save_data current_time arts fs = (fs', None) ∧
    news_history_json fs' = Parsed h' ∧
    hist_articles h' = Some merged ∧
    hist_lastUpdated h' = Some current_time ∧
    merged = take 50 (fresh ++ prior) ∧
    (length merged ≤ 50)%nat ∧
    (NoDup (link <$> arts) → NoDup (link <$> prior) → NoDup (link <$> merged)) ∧
    (fresh = [] → merged = take 50 prior).
Proof.
  intros Hload. cbv zeta.
  change (default [] (hist_articles h)) with (get_articles h).
  rewrite <- new_unique_spec. unfold save_data. rewrite Hload.
  eexists _, _, _. split; [reflexivity |]. simpl.
  do 4 (split; [reflexivity |]).
  split; [rewrite length_take; lia |]. split.
  - apply merged_NoDup.
  - by intros ->.
Qed.

(** C5, as stated, fails: a history file that is there but does not parse,
    or cannot be read, makes the save raise. *)
Lemma save_data_read_failure_counterexample :
  (save_data [] [] {| news_data_json := None; news_history_json := Malformed |}).2
    = Some JSONDecodeError ∧
  (save_data [] [] {| news_data_json := None; news_history_json := Unreadable |}).2
    = Some OSError.
Proof. split; reflexivity. Qed.

(** C5, amended.  When the history file is missing the save starts from an
    empty history and does not raise: the history written holds the first 50
    input articles.  When the file is there but cannot be read or does not
    parse, the exception leaves the save, after the snapshot was written and
    with the history file untouched. *)
Theorem save_data_missing_history (current_time : str) (arts : list article)
    (d : option news_data) :
  let snapshot :=
    {| lastUpdated := current_time; articles := arts;
       stats := {| totalArticles := length arts; lastRefresh := current_time;
                   version := str_of "2.0" |} |} in
  save_data current_time arts
      {| news_data_json := d; news_history_json := Missing |}
    = ({| news_data_json := Some snapshot;
          news_history_json :=
            Parsed {| hist_articles := Some (take 50 arts);
                      hist_lastUpdated := Some current_time;
                      hist_totalArticles := Some (length (take 50 arts)) |} |},
       None) ∧
  save_data current_time arts
      {| news_data_json := d; news_history_json := Malformed |}
    = ({| news_data_json := Some snapshot; news_history_json := Malformed |},
       Some JSONDecodeError) ∧
  save_data current_time arts
      {| news_data_json := d; news_history_json := Unreadable |}
    = ({| news_data_json := Some snapshot; news_history_json := Unreadable |},
       Some OSError).
Proof.
  cbv zeta. split; [|split; reflexivity].
  unfold save_data, merge. simpl.
  assert (new_unique arts
            {| hist_articles := Some []; hist_lastUpdated := None;
               hist_totalArticles := Some 0%nat |} = arts) as ->.
  { rewrite new_unique_spec. simpl. induction arts as [|a l IH]; [done |].
    rewrite filter_cons. destruct (decide _) as [_|Hn].
    - by rewrite IH.
    - destruct Hn. apply not_elem_of_nil. }
  unfold get_articles. simpl. by rewrite app_nil_r.
Qed.

(** C9.  The snapshot is always written, with the input articles and a
    count equal to their number.  When the save completes, the history
    written has a count equal to the number of its articles, which is at
    most 50. *)
Theorem save_data_counts (current_time : str) (arts : list article) (fs : files) :
  let fs' := (save_data current_time arts fs).1 in
  (∃ data, news_data_json fs' = Some data ∧
     articles data = arts ∧
     totalArticles (stats data) = length (articles data)) ∧
  ((save_data current_time arts fs).2 = None →
   ∃ h' l, news_history_json fs' = Parsed h' ∧
     hist_articles h' = Some l ∧
     hist_totalArticles h' = Some (length l) ∧
     (length l ≤ 50)%nat).
Proof.
  cbv zeta. unfold save_data.
  destruct (load_history (news_history_json fs)) as [e|h]; simpl.
  - split; [by eexists |]. done.
  - split; [by eexists |]. intros _. eexists _, _.
    split; [reflexivity |]. split; [reflexivity |]. split; [reflexivity |].
    rewrite length_take. lia.
Qed.

End PersistenceClaims.

(** ** The claims at sample inputs *)

Section Samples.

Import Summarizer ContentExtractor FeedPipeline Persistence.

(** Bullets are recognised by their marker after stripping the line; [4.] is
    no marker, and a bare [*] gives an empty bullet. *)
Example parse_bullets_sample :
  parse_bullets sample_response =
  [str_of "First one"; str_of "second"; str_of "third"; []].
Proof. by vm_compute. Qed.

Example create_summary_sample :
  create_summary (λ _, Response [Some sample_response]) (str_of "T") [] [] =
  [str_of "First one"; str_of "second"; str_of "third"].
Proof. by vm_compute. Qed.

(** Two marked lines are not enough; a response without text counts as a
    failed call. *)
Example create_summary_fallbacks :
  create_summary (λ _, Response [Some (str_of "- a" ++ [10] ++ str_of "- b")])
    (str_of "T") [] [] = fallback_parse (str_of "T") ∧
  create_summary (λ _, Response [None]) (str_of "T") [] []
    = fallback_error (str_of "T") ∧
  create_summary (λ _, Response []) (str_of "T") [] []
    = fallback_error (str_of "T").
Proof. by vm_compute. Qed.

(** Unwanted elements are dropped, the class is looked up in the class
    list, and the strings are stripped one by one and joined without a
    separator. *)
Example fetch_article_content_sample :
  fetch_article_content
    (HttpOk [Elem (str_of "nav") [] [Text (str_of "menu")];
             Elem (str_of "div") [str_of "wide"; str_of "post-content"]
               [Text (str_of " hello ");
                Elem (str_of "b") [] [Text (str_of "world")];
                Comment (str_of "hidden")]])
  = Some (str_of "helloworld").
Proof. by vm_compute. Qed.

(** Two empty paragraphs give one space, which is a text. *)
Example fetch_article_content_empty_paragraphs :
  fetch_article_content
    (HttpOk [Elem (str_of "p") [] []; Elem (str_of "p") [] []])
  = Some (str_of " ").
Proof. by vm_compute. Qed.

(** Without a title the call raises; with a content that is not empty the
    content is lowercased and its place names count. *)
Example determine_hook_type_sample :
  Classifier.determine_hook_type ascii_lower None (Some (str_of "Boston"))
    = inl AttributeError ∧
  Classifier.determine_hook_type ascii_lower (Some (str_of "Road closed"))
    (Some (str_of "In BOSTON today")) = inr Classifier.LOCAL_IMPACT ∧
  Classifier.determine_hook_type ascii_lower (Some (str_of "Road closed")) None
    = inr Classifier.NEWS ∧
  Classifier.determine_hook_type ascii_lower (Some (str_of "RED SOX and MBTA"))
    (Some (str_of "Boston")) = inr Classifier.SPORTS.
Proof. by vm_compute. Qed.

(** The scenario of the specification: of the two entries linked [L1] the
    first is kept, and the newest article comes first. *)
Example fetch_and_process_feeds_sample :
  (λ a, (title a, link a, pubDate a, hookType a)) <$>
    fetch_and_process_feeds sample_services
  = [(str_of "Celtics win", str_of "L2", str_of "2024-01-03", str_of "SPORTS");
     (str_of "A", str_of "L1", str_of "2024-01-02", str_of "NEWS")].
Proof. by vm_compute. Qed.

(** An entry without a link ends its feed: the entries behind it build
    nothing, and the next feed goes on with the articles so far. *)
Example fetch_and_process_broken_feed :
  (λ a, (title a, link a)) <$>
    fetch_and_process broken_services [str_of "feed1"; str_of "feed2"]
  = [(str_of "Kept", str_of "L1")] ∧
  length (visited broken_services initial [str_of "feed1"; str_of "feed2"])
  = 2%nat.
Proof. by vm_compute. Qed.

End Samples.

(** First seen wins on the sample feed, and the first entry linked [L1]
    has its article among those returned. *)
Lemma fetch_and_process_feeds_dedup_witness :
  Forall well_formed (considered sample_services FeedPipeline.RSS_FEEDS) ∧
  (∀ a, a ∈ FeedPipeline.fetch_and_process sample_services FeedPipeline.RSS_FEEDS →
        first_seen (considered sample_services FeedPipeline.RSS_FEEDS) a) ∧
  ∃ a, a ∈ FeedPipeline.fetch_and_process sample_services FeedPipeline.RSS_FEEDS ∧
       FeedPipeline.link a = str_of "L1" ∧ FeedPipeline.title a = str_of "A".
Proof.
  assert (Forall well_formed (considered sample_services FeedPipeline.RSS_FEEDS))
    as Hwf.
  { unfold considered, feed_entries. simpl.
    repeat constructor; by eexists. }
  split; [exact Hwf |].
  destruct (fetch_and_process_feeds_dedup sample_services FeedPipeline.RSS_FEEDS)
    as (_ & _ & H & Heq & Hbuilt & _ & _ & Hall).
  split; [rewrite <- (Heq Hwf); exact H |].
  destruct (Hbuilt []
              (FeedPipeline.Build_entry (Some (str_of "L1")) (Some (str_of "A"))
                 (Some (str_of "2024-01-02")) None)
              [FeedPipeline.Build_entry (Some (str_of "L1")) (Some (str_of "B"))
                 (Some (str_of "2024-01-01")) None;
               FeedPipeline.Build_entry (Some (str_of "L2"))
                 (Some (str_of "Celtics win")) (Some (str_of "2024-01-03"))
                 (Some (str_of "Final score"))])
    as (a & Ha & Hlink & Htitle & _).
  - rewrite (Heq Hwf). reflexivity.
  - constructor.
  - by eexists.
  - by eexists.
  - exists a. split; [apply Hall; [vm_compute; lia | exact Ha] |].
    simpl in Hlink, Htitle. split; congruence.
Defined.

(** The merge at a history that holds [L1], with [L1] and [L2] coming in. *)
Lemma save_data_merge_witness :
  ∃ fs' h',
    Persistence.save_data (str_of "2024-01-04T00:00:00+00:00")
      [sample_article "L2" "2024-01-03"; sample_article "L1" "2024-01-02"]
      (Persistence.Build_files None (Persistence.Parsed sample_history))
    = (fs', None) ∧
    Persistence.news_history_json fs' = Persistence.Parsed h' ∧
    Persistence.hist_articles h' =
      Some [sample_article "L2" "2024-01-03"; sample_article "L1" "2024-01-02"].
Proof.
  destruct (save_data_merge (str_of "2024-01-04T00:00:00+00:00")
              [sample_article "L2" "2024-01-03"; sample_article "L1" "2024-01-02"]
              (Persistence.Build_files None (Persistence.Parsed sample_history))
              sample_history eq_refl)
    as (fs' & h' & merged & Hsave & Hfile & Harts & _ & Hmerged & _).
  exists fs', h'. split; [exact Hsave |]. split; [exact Hfile |].
  rewrite Harts, Hmerged. f_equal.
Defined.

(** * Further properties *)

(** ** Stripping and splitting *)

Lemma lstrip_split (s : str) : ∃ pre, s = pre ++ lstrip s ∧ all_space pre.
Proof.
  induction s as [|c s (pre & IH & Hpre)]; simpl.
  - exists []. split; [done | constructor].
  - destruct (isspace c) eqn:E.
    + exists (c :: pre). split; [by rewrite IH at 1 | by constructor].
    + exists []. split; [done | constructor].
Qed.

Lemma lstrip_head (s : str) (c : N) :
  head (lstrip s) = Some c → isspace c = false.
Proof.
  induction s as [|x s IH]; simpl; [done |].
  destruct (isspace x) eqn:E; [done |]. simpl. by intros [= <-].
Qed.

Lemma lstrip_id (s : str) :
  (∀ c, head s = Some c → isspace c = false) → lstrip s = s.
Proof.
  destruct s as [|x s]; simpl; [done |]. intros H. by rewrite (H x).
Qed.

Lemma rstrip_split (s : str) : ∃ post, s = rstrip s ++ post ∧ all_space post.
Proof.
  unfold rstrip. destruct (lstrip_split (reverse s)) as (pre & H & Hpre).
  exists (reverse pre). split; [|by apply Forall_reverse].
  rewrite <- reverse_app, <- H. by rewrite reverse_involutive.
Qed.

Lemma rstrip_last (s : str) (c : N) :
  last (rstrip s) = Some c → isspace c = false.
Proof. unfold rstrip. rewrite last_reverse. apply lstrip_head. Qed.

Lemma rstrip_id (s : str) :
  (∀ c, last s = Some c → isspace c = false) → rstrip s = s.
Proof.
  intros H. unfold rstrip. rewrite lstrip_id; [apply reverse_involutive |].
  intros c. rewrite head_reverse. apply H.
Qed.

Lemma rstrip_head (s : str) (c : N) :
  head (rstrip s) = Some c → head s = Some c.
Proof.
  destruct (rstrip_split s) as (post & H & _). rewrite H at 2.
  destruct (rstrip s); [done |]. by simpl.
Qed.

Lemma strip_trimmed (s : str) : trimmed (strip s).
Proof.
  unfold strip. split.
  - intros c H%rstrip_head. by apply (lstrip_head s).
  - apply rstrip_last.
Qed.

Lemma strip_split (s : str) :
  ∃ pre post, s = pre ++ strip s ++ post ∧ all_space pre ∧ all_space post.
Proof.
  destruct (lstrip_split s) as (pre & H & Hpre).
  destruct (rstrip_split (lstrip s)) as (post & H' & Hpost).
  exists pre, post. unfold strip. by rewrite <- H', <- H.
Qed.

Lemma strip_id (s : str) : trimmed s → strip s = s.
Proof.
  intros [Hh Hl]. unfold strip. rewrite (lstrip_id s Hh). by apply rstrip_id.
Qed.

Lemma split_lines_nonempty (s : str) : split_lines s ≠ [].
Proof.
  induction s as [|c s IH]; simpl; [done |].
  destruct (c =? 10); [done |]. by destruct (split_lines s).
Qed.

Lemma split_lines_app (a b : str) :
  split_lines (a ++ 10 :: b) = split_lines a ++ split_lines b.
Proof.
  induction a as [|c a IH]; simpl; [done |].
  destruct (c =? 10); [by rewrite IH |]. rewrite IH.
  pose proof (split_lines_nonempty a). by destruct (split_lines a).
Qed.

Lemma split_lines_length (s : str) : length (split_lines s) = S (newlines s).
Proof.
  unfold newlines. induction s as [|c s IH]; [done |].
  cbn [split_lines]. rewrite filter_cons.
  destruct (N.eqb_spec c 10) as [->|Hne].
  - rewrite decide_True by done. simpl. by rewrite IH.
  - rewrite decide_False by done. rewrite <- IH.
    pose proof (split_lines_nonempty s). by destruct (split_lines s).
Qed.

Lemma join_split_lines (s : str) : join [10] (split_lines s) = s.
Proof.
  induction s as [|c s IH]; simpl; [done |].
  pose proof (split_lines_nonempty s) as Hne.
  destruct (c =? 10) eqn:E.
  - apply N.eqb_eq in E as ->. simpl.
    destruct (split_lines s) eqn:Es; [done |]. by rewrite IH.
  - destruct (split_lines s) as [|l ls] eqn:Es; [done |].
    destruct ls; simpl in *; congruence.
Qed.

Lemma omap_length_le {A B} (f : A → option B) (l : list A) :
  (length (omap f l) ≤ length l)%nat.
Proof.
  induction l as [|x l IH]; simpl; [done |].
  change (list_omap A B f l) with (omap f l). destruct (f x); simpl; lia.
Qed.

(** ** Summarizer, further *)

Section SummarizerExtras.

Import Summarizer.

(** The inner loop takes off the first marker the line starts with. *)
Lemma clean_line_spec (line : str) (ps : list str) :
  existsb (startswith line) ps = true →
  ∃ p rest, p ∈ ps ∧ line = p ++ rest ∧ clean_line line ps = strip rest.
Proof.
  induction ps as [|p ps IH]; simpl; [done |].
  destruct (startswith line p) eqn:E.
  - intros _. apply startswith_spec in E as [rest ->].
    exists p, rest. split; [by left |]. split; [done |].
    by rewrite drop_app_length.
  - simpl. intros H. destruct (IH H) as (q & rest & Hq & Hl & Hc).
    exists q, rest. split; [by right | done].
Qed.

Lemma parse_line_spec (line b : str) :
  parse_line line = Some b →
  ∃ p rest, p ∈ prefixes ∧ strip line = p ++ rest ∧ b = strip rest.
Proof.
  unfold parse_line.
  destruct (truthy (strip line) && existsb (startswith (strip line)) prefixes)
    eqn:E; [|done].
  apply andb_true_iff in E as [_ E]. intros [= <-].
  destruct (clean_line_spec _ _ E) as (p & rest & Hp & Hl & Hc).
  by exists p, rest.
Qed.

(** X1.  Every bullet that the parsing loop yields comes from a line of the
    response which, once stripped, starts with one of the six markers; the
    bullet is what follows the marker, stripped, so it neither starts nor
    ends with whitespace. *)
Theorem parse_bullets_sound (text : str) :
  Forall (λ b, ∃ line p rest,
            line ∈ split_lines text ∧ p ∈ prefixes ∧
            strip line = p ++ rest ∧ b = strip rest ∧ trimmed b)
         (parse_bullets text).
Proof.
  apply Forall_forall. intros b Hb. unfold parse_bullets in Hb.
  apply list_elem_of_omap in Hb as (line & Hline & Hparse).
  destruct (parse_line_spec line b Hparse) as (p & rest & Hp & Hl & ->).
  exists line, p, rest. repeat split; try done; apply strip_trimmed.
Qed.

(** X2.  Parsing goes line by line: the bullets of two texts joined by a
    newline are the bullets of the first followed by those of the second. *)
Theorem parse_bullets_app (a b : str) :
  parse_bullets (a ++ [10] ++ b) = parse_bullets a ++ parse_bullets b.
Proof.
  unfold parse_bullets. simpl. by rewrite split_lines_app, omap_app.
Qed.

Lemma parse_bullets_length (text : str) :
  (length (parse_bullets text) ≤ S (newlines text))%nat.
Proof.
  unfold parse_bullets. rewrite <- split_lines_length. apply omap_length_le.
Qed.

(** X3.  A response whose stripped text has fewer than two newlines cannot
    hold three bullets: the summary is then the fixed triple for a failed
    parse, whatever the lines say. *)
Theorem create_summary_needs_three_lines (chat : str → completion)
    (title content url text : str) (others : list (option str)) :
  chat (prompt title content) = Response (Some text :: others) →
  (newlines (strip text) < 2)%nat →
  create_summary chat title content url = fallback_parse title.
Proof.
  intros Hchat Hnl. unfold create_summary. rewrite Hchat. simpl.
  pose proof (parse_bullets_length (strip text)).
  rewrite bool_decide_false; [done | lia].
Qed.

End SummarizerExtras.

(** ** ContentExtractor, further *)

Section ContentExtractorExtras.

Import ContentExtractor.

(** Induction on a document node, with the property at hand for all the
    children of an element. *)
Lemma node_children_ind (P : node → Prop) :
  (∀ s, P (Text s)) → (∀ s, P (Comment s)) →
  (∀ tag classes children, Forall P children → P (Elem tag classes children)) →
  ∀ n, P n.
Proof.
  intros HT HC HE. fix IH 1. intros [s|s|tag classes children].
  - apply HT.
  - apply HC.
  - apply HE. induction children as [|c children IHc]; constructor.
    + apply IH.
    + apply IHc.
Qed.

Lemma Forall_flat_map {A B} (P : B → Prop) (f : A → list B) (l : list A) :
  Forall (λ x, Forall P (f x)) l → Forall P (flat_map f l).
Proof.
  induction 1 as [|x l Hx _ IH]; simpl; [constructor | by apply Forall_app].
Qed.

Lemma flat_map_flat_map {A B C} (f : B → list C) (g : A → list B) (l : list A) :
  flat_map f (flat_map g l) = flat_map (λ x, flat_map f (g x)) l.
Proof.
  induction l as [|x l IH]; simpl; [done |]. by rewrite flat_map_app, IH.
Qed.

Lemma decompose_unwanted_kept (n : node) :
  Forall kept (flat_map self_and_descendants (decompose_unwanted n)).
Proof.
  induction n as [s|s|tag classes children IH] using node_children_ind.
  - simpl. by repeat constructor.
  - simpl. by repeat constructor.
  - cbn [decompose_unwanted]. destruct (is_unwanted tag) eqn:E; [constructor |].
    cbn [flat_map self_and_descendants]. rewrite app_nil_r.
    constructor; [exact E |].
    rewrite flat_map_flat_map. by apply Forall_flat_map.
Qed.

(** X5.  After the unwanted elements are removed, no [script], [style],
    [nav], [header], [footer] or [aside] element is left anywhere in the
    document, at any depth: nothing below such an element can reach the
    excerpt. *)
Theorem decompose_unwanted_complete (soup : list node) :
  Forall kept (descendants (flat_map decompose_unwanted soup)).
Proof.
  unfold descendants. rewrite flat_map_flat_map. apply Forall_flat_map.
  apply Forall_forall. intros n _. apply decompose_unwanted_kept.
Qed.

Lemma decompose_unwanted_id (n : node) :
  Forall kept (self_and_descendants n) → decompose_unwanted n = [n].
Proof.
  induction n as [s|s|tag classes children IH] using node_children_ind;
    [done | done |].
  cbn [self_and_descendants decompose_unwanted].
  intros [Htag Hch]%Forall_cons. simpl in Htag. rewrite Htag.
  do 2 f_equal. clear Htag.
  induction IH as [|c children Hc _ IHch]; [done |].
  simpl in Hch. apply Forall_app in Hch as [Hc' Hch].
  simpl. by rewrite (Hc Hc'), (IHch Hch).
Qed.

(** A document without any of the unwanted elements is left as it is. *)
Lemma decompose_unwanted_id_all (soup : list node) :
  Forall kept (descendants soup) → flat_map decompose_unwanted soup = soup.
Proof.
  unfold descendants. induction soup as [|n soup IH]; [done |].
  simpl. intros [Hn Hsoup]%Forall_app.
  by rewrite (decompose_unwanted_id n Hn), (IH Hsoup).
Qed.

Lemma fmap_flat_map {A B C} (f : B → C) (g : A → list B) (l : list A) :
  f <$> flat_map g l = flat_map (λ x, f <$> g x) l.
Proof.
  induction l as [|x l IH]; simpl; [done |]. by rewrite fmap_app, IH.
Qed.

Lemma flat_map_Forall_ext {A B} (f g : A → list B) (l : list A) :
  Forall (λ x, f x = g x) l → flat_map f l = flat_map g l.
Proof. induction 1 as [|x l Hx _ IH]; simpl; [done | by rewrite Hx, IH]. Qed.

Lemma decompose_unwanted_labels (n : node) :
  node_label <$> flat_map self_and_descendants (decompose_unwanted n)
  = node_label <$> visible n.
Proof.
  induction n as [s|s|tag classes children IH] using node_children_ind;
    [done | done |].
  cbn [decompose_unwanted visible]. destruct (is_unwanted tag); [done |].
  cbn [flat_map self_and_descendants]. rewrite app_nil_r, !fmap_cons.
  f_equal. rewrite flat_map_flat_map, !fmap_flat_map.
  by apply flat_map_Forall_ext.
Qed.

(** X6.  The removal takes away the unwanted elements with what lies below
    them, and nothing else: the nodes of the cleaned document are, in
    document order and with the same strings, tags and classes, the nodes of
    the original that are neither an unwanted element nor below one. *)
Theorem decompose_unwanted_exact (soup : list node) :
  node_label <$> descendants (flat_map decompose_unwanted soup)
  = node_label <$> flat_map visible soup.
Proof.
  unfold descendants. rewrite flat_map_flat_map, !fmap_flat_map.
  apply flat_map_Forall_ext, Forall_forall. intros n _.
  apply decompose_unwanted_labels.
Qed.

(** A [nav] inside a [div]: the [div] and its own text stay. *)
Example decompose_unwanted_sample :
  node_label <$> descendants (flat_map decompose_unwanted page_with_nav)
  = [inr (str_of "div", []); inl (inl (str_of "Story"))].
Proof. by vm_compute. Qed.

Lemma join_cons_cons (sep p q : str) (parts : list str) :
  join sep (p :: q :: parts) = p ++ sep ++ join sep (q :: parts).
Proof. reflexivity. Qed.

Lemma join_empty_trimmed (parts : list str) :
  Forall (λ s, s ≠ [] ∧ trimmed s) parts →
  trimmed (join [] parts) ∧ (parts ≠ [] → join [] parts ≠ []).
Proof.
  induction 1 as [|p parts [Hne [Hh Hl]] Hparts [[IHh IHl] IHne]].
  - split; [by split | done].
  - destruct parts as [|q parts]; [by split |].
    rewrite join_cons_cons, app_nil_l.
    assert (join [] (q :: parts) ≠ []) as Hrest by by apply IHne.
    split; [split |].
    + intros c. destruct p; [done |]. apply Hh.
    + intros c [H | [H _]]%last_app_Some; [by apply IHl |].
      apply last_None in H. destruct (Hrest H).
    + intros _. by destruct p.
Qed.

Lemma stripped_strings_trimmed (n : node) :
  Forall (λ s, s ≠ [] ∧ trimmed s) (stripped_strings n).
Proof.
  apply Forall_forall. intros s Hs. unfold stripped_strings in Hs.
  apply list_elem_of_omap in Hs as (d & _ & Hd).
  destruct d as [t| |]; try done.
  destruct (truthy (strip t)) eqn:E; [|done]. injection Hd as <-.
  split; [by apply truthy_nonempty | apply strip_trimmed].
Qed.

(** X7.  The text taken from an element neither starts nor ends with
    whitespace, whatever the spacing inside the document. *)
Theorem get_text_trimmed (n : node) : trimmed (get_text n).
Proof.
  unfold get_text. apply join_empty_trimmed, stripped_strings_trimmed.
Qed.

(** X8.  A page on which none of the four selectors matches and which has
    no paragraph element gives no content, even when it holds text. *)
Theorem fetch_article_content_unmatched (soup : list node) :
  Forall unmatched (descendants (flat_map decompose_unwanted soup)) →
  fetch_article_content (HttpOk soup) = None.
Proof.
  intros H. cbn [fetch_article_content].
  assert (extracted soup = []) as ->; [|done].
  unfold extracted. rewrite try_selectors_none.
  - cbn [falsy]. unfold paragraph_text, find_all.
    assert (filter (λ n, matches (ByTag (str_of "p")) n = true)
              (descendants (flat_map decompose_unwanted soup)) = []) as ->; [|done].
    induction H as [|n l [_ Hn] _ IH]; [done |].
    rewrite filter_cons, decide_False; [done | congruence].
  - apply Forall_forall. intros sel Hsel. apply select_one_None.
    eapply Forall_impl; [exact H |]. intros n [Hn _].
    by apply (proj1 (Forall_forall _ _) Hn).
Qed.

End ContentExtractorExtras.

(** A page with its text in a [div] gives no content. *)
Lemma fetch_article_content_unmatched_witness :
  ContentExtractor.fetch_article_content (ContentExtractor.HttpOk page_plain) = None.
Proof.
  apply fetch_article_content_unmatched.
  repeat constructor.
Defined.

(** ** Classifier, further *)

Section ClassifierExtras.

Import Classifier.

Variable lower : str → str.

Lemma determine_hook_type_title (title : str) (content : option str) :
  ∃ c, determine_hook_type lower (Some title) content
       = inr (classify_lowered (lower title) c).
Proof.
  unfold determine_hook_type. simpl.
  destruct content as [c|]; [destruct (truthy c) |]; simpl; by eexists.
Qed.

Lemma ascii_lower_app (a b : str) :
  ascii_lower (a ++ b) = ascii_lower a ++ ascii_lower b.
Proof. apply fmap_app. Qed.

(** X9.  A sports keyword written in any mix of upper and lower case,
    anywhere in an ASCII title (inside a longer word too), makes the story
    SPORTS, whatever else the title holds and whatever the content is, absent
    or not. *)
Theorem determine_hook_type_sports_anywhere (pre w post : str)
    (content : option str) :
  lower_on_ascii lower →
  is_ascii (pre ++ w ++ post) →
  ascii_lower w ∈ sports_words →
  determine_hook_type lower (Some (pre ++ w ++ post)) content = inr SPORTS.
Proof.
  intros Hlower Hascii Hw.
  destruct (determine_hook_type_title (pre ++ w ++ post) content) as [c Hc].
  etrans; [exact Hc |]. f_equal. rewrite (Hlower _ Hascii), !ascii_lower_app.
  unfold classify_lowered.
  assert (any_in (ascii_lower pre ++ ascii_lower w ++ ascii_lower post)
                 sports_words = true) as ->; [|done].
  apply any_in_spec. exists (ascii_lower w). split; [done |].
  by exists (ascii_lower pre), (ascii_lower post).
Qed.

(** X10.  When the lowercased title holds no keyword of the four title
    rules, a place name written in any mix of upper and lower case anywhere
    in an ASCII content makes the story LOCAL_IMPACT. *)
Theorem determine_hook_type_local_anywhere (title pre w post : str) :
  lower_on_ascii lower →
  is_ascii (pre ++ w ++ post) →
  ascii_lower w ∈ local_words →
  ¬ mentions (lower title) sports_words →
  ¬ mentions (lower title) transit_words →
  ¬ mentions (lower title) politics_words →
  ¬ mentions (lower title) weather_words →
  determine_hook_type lower (Some title) (Some (pre ++ w ++ post))
  = inr LOCAL_IMPACT.
Proof.
  intros Hlower Hascii Hw H1 H2 H3 H4.
  rewrite determine_hook_type_str. f_equal.
  assert (w ≠ []) as Hne.
  { intros ->. revert Hw. vm_compute. intros Hw.
    repeat (apply elem_of_cons in Hw as [Hw|Hw]; [discriminate Hw |]).
    by apply elem_of_nil in Hw. }
  assert (truthy (pre ++ w ++ post) = true) as ->.
  { apply truthy_nonempty. intros [_ [H _]%app_eq_nil]%app_eq_nil. done. }
  rewrite (Hlower _ Hascii), !ascii_lower_app.
  destruct (classify_lowered_first_match (lower title)
              (ascii_lower pre ++ ascii_lower w ++ ascii_lower post))
    as (_ & _ & _ & _ & H & _).
  apply H; try done. exists (ascii_lower w). split; [done |].
  by exists (ascii_lower pre), (ascii_lower post).
Qed.

End ClassifierExtras.

(** "Go CELTICS!" under the ASCII lowering. *)
Lemma determine_hook_type_sports_anywhere_witness :
  Classifier.determine_hook_type ascii_lower
    (Some (str_of "Go " ++ str_of "CELTICS" ++ str_of "!")) None
  = inr Classifier.SPORTS.
Proof.
  apply determine_hook_type_sports_anywhere.
  - intros s _. reflexivity.
  - vm_compute. repeat constructor.
  - vm_compute. repeat constructor.
Defined.

(** A plain title and a content naming SOMERVILLE. *)
Lemma determine_hook_type_local_anywhere_witness :
  Classifier.determine_hook_type ascii_lower (Some (str_of "Road closed"))
    (Some (str_of "In " ++ str_of "SOMERVILLE" ++ str_of " today"))
  = inr Classifier.LOCAL_IMPACT.
Proof.
  apply determine_hook_type_local_anywhere.
  - intros s _. reflexivity.
  - vm_compute. repeat constructor.
  - vm_compute. repeat constructor.
  - by apply any_in_false.
  - by apply any_in_false.
  - by apply any_in_false.
  - by apply any_in_false.
Defined.

(** ** FeedPipeline, further *)

Section PipelineExtras.

Import Classifier Summarizer FeedPipeline.

Variable svc : services.

Lemma create_summary_length (chat : str → completion) (title content url : str) :
  length (create_summary chat title content url) = 3%nat.
Proof.
  unfold create_summary. destruct (summary_text _) as [e|text]; [done |].
  case_bool_decide; [rewrite length_take; lia | done].
Qed.

Lemma fetch_and_process_built (feed_urls : list str) :
  fetch_and_process svc feed_urls =
  take MAX_ARTICLES (sort_by_pubDate_desc (built svc feed_urls)).
Proof. reflexivity. Qed.

(** Nothing was appended. *)
Local Ltac appends_nothing :=
  exists []; rewrite app_nil_r;
  split; [reflexivity | split; [constructor | simpl; lia]].

(** The loop body appends at most one article, a well-built one. *)
Lemma process_entry_appends (st : state) (e : entry) :
  ∃ new, all_articles (process_entry svc st e).1 = all_articles st ++ new ∧
         Forall well_built new ∧ (length new ≤ 1)%nat.
Proof.
  unfold process_entry.
  destruct (e_link e) as [url|]; [|appends_nothing].
  case_bool_decide; [appends_nothing |].
  destruct (e_title e) as [ttl|]; [|appends_nothing].
  rewrite determine_hook_type_str. eexists [_]. split; [reflexivity |].
  split; [|done]. constructor; [|constructor]. split; simpl.
  - apply create_summary_length.
  - by eexists.
Qed.

Lemma process_entries_appends (st : state) (entries : list entry) :
  ∃ new, all_articles (process_entries svc st entries) = all_articles st ++ new ∧
         Forall well_built new ∧ (length new ≤ length entries)%nat.
Proof.
  revert st. induction entries as [|e entries IH]; intros st; simpl.
  - appends_nothing.
  - destruct (process_entry_appends st e) as (new1 & H1 & Hw1 & Hl1).
    destruct (process_entry svc st e) as [st' b]. simpl in H1. destruct b.
    + exists new1. split; [done |]. split; [done | lia].
    + destruct (IH st') as (new2 & H2 & Hw2 & Hl2).
      exists (new1 ++ new2). rewrite H2, H1, (assoc_L (++)).
      split; [done |]. split; [by apply Forall_app |].
      rewrite length_app. lia.
Qed.

Lemma feeds_append (st : state) (feed_urls : list str) :
  ∃ new, all_articles (foldl (process_feed svc) st feed_urls)
           = all_articles st ++ new ∧
         Forall well_built new ∧
         (length new ≤ length (considered svc feed_urls))%nat.
Proof.
  revert st. induction feed_urls as [|u urls IH]; intros st.
  - appends_nothing.
  - cbn [foldl]. rewrite considered_cons, length_app.
    destruct (IH (process_feed svc st u)) as (new2 & H2 & Hw2 & Hl2).
    assert (∃ new1, all_articles (process_feed svc st u) = all_articles st ++ new1 ∧
              Forall well_built new1 ∧
              (length new1 ≤ length (feed_entries svc u))%nat)
      as (new1 & H1 & Hw1 & Hl1).
    { unfold process_feed, feed_entries. destruct (parse svc u) as [|es].
      - appends_nothing.
      - apply process_entries_appends. }
    exists (new1 ++ new2). rewrite H2, H1, (assoc_L (++)).
    split; [done |]. split; [by apply Forall_app |].
    rewrite length_app. lia.
Qed.

Lemma built_well_built (feed_urls : list str) :
  Forall well_built (built svc feed_urls).
Proof.
  unfold built. destruct (feeds_append initial feed_urls) as (new & -> & H & _).
  done.
Qed.

(** X11.  Every article a run returns carries exactly three bullets and one
    of the six labels, whatever the pages and the completion service do. *)
Theorem fetch_and_process_well_built (feed_urls : list str) :
  Forall well_built (fetch_and_process svc feed_urls).
Proof.
  rewrite fetch_and_process_built. apply Forall_take.
  rewrite sort_by_pubDate_desc_perm. apply built_well_built.
Qed.

Lemma considered_length (feed_urls : list str) :
  (length (considered svc feed_urls) ≤ 15 * length feed_urls)%nat.
Proof.
  induction feed_urls as [|u urls IH]; [done |].
  rewrite considered_cons, length_app. simpl.
  assert (length (feed_entries svc u) ≤ 15)%nat; [|lia].
  unfold feed_entries. destruct (parse svc u); simpl; [lia |].
  rewrite length_take. lia.
Qed.

(** X12.  A run builds at most one article per entry it looks at, hence at
    most 15 per feed: the number of page requests that lead to an article,
    and of completion calls, is bounded by 15 times the number of feeds. *)
Theorem built_bounded (feed_urls : list str) :
  (length (built svc feed_urls) ≤ length (considered svc feed_urls))%nat ∧
  (length (built svc feed_urls) ≤ 15 * length feed_urls)%nat.
Proof.
  unfold built. destruct (feeds_append initial feed_urls) as (new & -> & _ & H).
  simpl. pose proof (considered_length feed_urls). lia.
Qed.

(** X13.  Feeds read later never undo earlier work: the articles built from
    a list of feeds stay, in the same order and at the front, when more
    feeds follow, whether those parse or not. *)
Theorem built_prefix (feed_urls more : list str) :
  built svc feed_urls `prefix_of` built svc (feed_urls ++ more).
Proof.
  unfold built. rewrite foldl_app.
  destruct (feeds_append (foldl (process_feed svc) initial feed_urls) more)
    as (new & -> & _). by exists new.
Qed.

Lemma str_lt_irrefl (a : str) : str_lt a a = false.
Proof. unfold str_lt. by rewrite str_le_refl. Qed.

Lemma insert_desc_filter (k : str) (a : article) (l : list article) :
  filter (λ x, pubDate x = k) (insert_desc a l) =
  filter (λ x, pubDate x = k) (a :: l).
Proof.
  induction l as [|b l IH]; [done |]. cbn [insert_desc].
  destruct (str_lt (pubDate a) (pubDate b)) eqn:E; [|done].
  rewrite (filter_cons _ b), IH, !filter_cons.
  destruct (decide (pubDate b = k)) as [Hb|Hb]; [|done].
  destruct (decide (pubDate a = k)) as [Ha|Ha]; [|done].
  rewrite Ha, Hb, str_lt_irrefl in E. done.
Qed.

Lemma sort_by_pubDate_desc_stable (k : str) (l : list article) :
  filter (λ x, pubDate x = k) (sort_by_pubDate_desc l) =
  filter (λ x, pubDate x = k) l.
Proof.
  induction l as [|a l IH]; [done |]. cbn [sort_by_pubDate_desc foldr].
  rewrite insert_desc_filter, !filter_cons.
  change (foldr insert_desc [] l) with (sort_by_pubDate_desc l).
  by rewrite IH.
Qed.

(** X14.  The sort is stable: among the articles returned, those with the
    same [pubDate] stand in the order in which they were built. *)
Theorem fetch_and_process_stable (feed_urls : list str) (k : str) :
  filter (λ a, pubDate a = k) (fetch_and_process svc feed_urls)
  `prefix_of` filter (λ a, pubDate a = k) (built svc feed_urls).
Proof.
  rewrite fetch_and_process_built, <- (sort_by_pubDate_desc_stable k (built _ _)).
  set (l := sort_by_pubDate_desc _). rewrite <- (take_drop MAX_ARTICLES l) at 2.
  rewrite filter_app. by eexists.
Qed.

(** X15.  The cap drops only from the old end.  The articles returned and
    the articles dropped make up the articles built; no dropped article has
    a [pubDate] above that of a returned one; the number returned is the
    smaller of 12 and the number built, so with at most 12 built none is
    dropped. *)
Theorem fetch_and_process_cap (feed_urls : list str) :
  let out := fetch_and_process svc feed_urls in
  let dropped := drop MAX_ARTICLES (sort_by_pubDate_desc (built svc feed_urls)) in
  out ++ dropped ≡ₚ built svc feed_urls ∧
  (∀ a b, a ∈ out → b ∈ dropped → pubDate_desc a b) ∧
  length out = (12 `min` length (built svc feed_urls))%nat ∧
  ((length (built svc feed_urls) ≤ 12)%nat → dropped = []).
Proof.
  cbv zeta. rewrite fetch_and_process_built.
  set (l := sort_by_pubDate_desc (built svc feed_urls)).
  assert (l ≡ₚ built svc feed_urls) as Hperm by apply sort_by_pubDate_desc_perm.
  split; [by rewrite take_drop |]. split; [|split].
  - intros a b Ha Hb.
    pose proof (sort_by_pubDate_desc_sorted (built svc feed_urls)) as Hs.
    fold l in Hs. rewrite <- (take_drop MAX_ARTICLES l) in Hs.
    by apply (StronglySorted_app_1_elem_of _ _ _ _ _ Hs).
  - rewrite length_take, Hperm. done.
  - intros Hlen. apply drop_ge. rewrite Hperm. done.
Qed.

(** *** Every link gets its article *)

Lemma process_entry_covered (st : state) (src : list entry) (e : entry) :
  well_formed e → links_covered st src →
  links_covered (process_entry svc st e).1 (src ++ [e]).
Proof.
  intros [[l Hl] [t Ht]] [Hseen Hsrc].
  destruct (process_entry_cases svc st e)
    as [[_ Hnone] | [(url & Hlink & Hin & ->) | [(url & _ & _ & Hnone & _)
        | (url & a & Hlink & Hnew & Hmade & ->)]]]; try congruence; simpl.
  - split; [done |].
    intros e' [He' | ->%list_elem_of_singleton]%elem_of_app; [by apply Hsrc |].
    destruct (Hseen url Hin) as (a & Ha & <-). by exists a.
  - assert (link a = url) as Ha.
    { destruct Hmade as (H & _). rewrite Hlink in H. by injection H. }
    split.
    + intros l' [->%elem_of_singleton | Hl']%elem_of_union.
      * exists a. split; [apply elem_of_app; right; by left | done].
      * destruct (Hseen l' Hl') as (a' & Ha' & <-). exists a'.
        split; [apply elem_of_app; by left | done].
    + intros e' [He' | ->%list_elem_of_singleton]%elem_of_app.
      * destruct (Hsrc e' He') as (a' & Ha' & Hl'). exists a'.
        split; [apply elem_of_app; by left | done].
      * exists a. split; [apply elem_of_app; right; by left |].
        by rewrite Hlink, Ha.
Qed.

Lemma process_entries_covered (st : state) (src entries : list entry) :
  Forall well_formed entries → links_covered st src →
  links_covered (process_entries svc st entries) (src ++ entries).
Proof.
  revert st src. induction entries as [|e entries IH]; intros st src Hwf Hinv.
  - simpl. by rewrite app_nil_r.
  - apply Forall_cons in Hwf as [He Hwf]. cbn [process_entries].
    pose proof (process_entry_covered st src e He Hinv) as H.
    pose proof (process_entry_well_formed svc st e He) as Hb.
    destruct (process_entry svc st e) as [st' b]. simpl in H, Hb. subst b.
    rewrite cons_middle, (assoc_L (++)). by apply IH.
Qed.

Lemma feeds_covered (st : state) (src : list entry) (feed_urls : list str) :
  Forall well_formed (considered svc feed_urls) → links_covered st src →
  links_covered (foldl (process_feed svc) st feed_urls)
                (src ++ considered svc feed_urls).
Proof.
  revert st src. induction feed_urls as [|u urls IH]; intros st src Hwf Hinv.
  - simpl. by rewrite app_nil_r.
  - rewrite considered_cons in *. apply Forall_app in Hwf as [Hu Hwf].
    rewrite (assoc_L (++)). cbn [foldl]. apply IH; [done |].
    unfold process_feed, feed_entries in *. destruct (parse svc u) as [|es].
    + by rewrite app_nil_r.
    + by apply process_entries_covered.
Qed.

(** X16.  When every entry among the first 15 of each feed has a link and a
    title, every such entry has an article with its link among those built;
    and when at most 12 are built, among those returned. *)
Theorem fetch_and_process_covers (feed_urls : list str) :
  Forall well_formed (considered svc feed_urls) →
  (∀ e, e ∈ considered svc feed_urls →
     ∃ a, a ∈ built svc feed_urls ∧ e_link e = Some (link a)) ∧
  ((length (built svc feed_urls) ≤ 12)%nat →
   ∀ e, e ∈ considered svc feed_urls →
     ∃ a, a ∈ fetch_and_process svc feed_urls ∧ e_link e = Some (link a)).
Proof.
  intros Hwf.
  assert (links_covered initial []) as Hinit.
  { split; [intros l Hl; by apply elem_of_empty in Hl
           | intros e He; by apply elem_of_nil in He]. }
  destruct (feeds_covered initial [] feed_urls Hwf Hinit) as [_ Hcov].
  rewrite app_nil_l in Hcov. split; [exact Hcov |].
  intros Hlen e He. destruct (Hcov e He) as (a & Ha & Hl).
  exists a. split; [|done].
  rewrite fetch_and_process_built, take_ge.
  - by rewrite sort_by_pubDate_desc_perm.
  - by rewrite sort_by_pubDate_desc_perm.
Qed.

(** X21.  A feed that does not parse is skipped without a trace: the run
    returns what it would return with that feed left out of the list. *)
Theorem fetch_and_process_skips_failed_feed (before after : list str) (u : str) :
  parse svc u = FeedRaises →
  fetch_and_process svc (before ++ u :: after)
  = fetch_and_process svc (before ++ after).
Proof.
  intros Hu. unfold fetch_and_process. rewrite !foldl_app. cbn [foldl].
  unfold process_feed at 2. by rewrite Hu.
Qed.

End PipelineExtras.

(** On the sample feed both links are covered by the articles returned. *)
Lemma fetch_and_process_covers_witness :
  Forall well_formed (considered sample_services FeedPipeline.RSS_FEEDS) ∧
  ∀ e, e ∈ considered sample_services FeedPipeline.RSS_FEEDS →
    ∃ a, a ∈ FeedPipeline.fetch_and_process sample_services FeedPipeline.RSS_FEEDS ∧
         FeedPipeline.e_link e = Some (FeedPipeline.link a).
Proof.
  assert (Forall well_formed (considered sample_services FeedPipeline.RSS_FEEDS))
    as Hwf.
  { unfold considered, feed_entries. simpl. repeat constructor; by eexists. }
  split; [exact Hwf |].
  destruct (fetch_and_process_covers sample_services FeedPipeline.RSS_FEEDS Hwf)
    as [_ H].
  apply H. vm_compute. lia.
Defined.

(** ** Persistence, further *)

Section PersistenceExtras.

Import FeedPipeline Persistence.

Lemma fetch_and_process_NoDup (svc : services) (feed_urls : list str) :
  NoDup (link <$> fetch_and_process svc feed_urls).
Proof.
  destruct (feeds_tracked svc initial [] feed_urls (initial_tracked))
    as (Hnd & _).
  unfold fetch_and_process. rewrite fmap_take. apply NoDup_take.
  by rewrite sort_by_pubDate_desc_perm.
Qed.

Lemma save_data_loaded (t : str) (arts : list article) (fs : files) (h : history) :
  load_history (news_history_json fs) = inr h →
  save_data t arts fs =
    ({| news_data_json :=
          Some {| lastUpdated := t; articles := arts;
                  stats := {| totalArticles := length arts; lastRefresh := t;
                              version := str_of "2.0" |} |};
        news_history_json := Parsed (merge t arts h) |}, None).
Proof. intros H. unfold save_data. by rewrite H. Qed.

(** X17.  When the output of a run is saved and the save completes, both
    documents written are free of repeated links, provided the history read
    was: the snapshot holds the run's articles, no two with the same link,
    and the history holds at most 50 entries, no two with the same link. *)
Theorem run_then_save_history (svc : services) (feed_urls : list str)
    (t : str) (fs fs' : files) (h : history) :
  load_history (news_history_json fs) = inr h →
  NoDup (link <$> get_articles h) →
  save_data t (fetch_and_process svc feed_urls) fs = (fs', None) →
  ∃ data h',
    news_data_json fs' = Some data ∧
    articles data = fetch_and_process svc feed_urls ∧
    NoDup (link <$> articles data) ∧
    news_history_json fs' = Parsed h' ∧
    NoDup (link <$> get_articles h') ∧
    (length (get_articles h') ≤ 50)%nat.
Proof.
  intros Hload Hnd Hsave.
  rewrite (save_data_loaded _ _ _ _ Hload) in Hsave. injection Hsave as <-.
  eexists _, _. split; [reflexivity |]. split; [reflexivity |]. simpl.
  split; [apply fetch_and_process_NoDup |]. split; [reflexivity |]. split.
  - apply merged_NoDup; [apply fetch_and_process_NoDup | done].
  - unfold get_articles at 1. simpl. rewrite length_take. lia.
Qed.

Lemma filter_none {A} (P : A → Prop) `{!∀ x, Decision (P x)} (l : list A) :
  (∀ x, x ∈ l → ¬ P x) → filter P l = [].
Proof.
  induction l as [|x l IH]; [done |]. intros Hall.
  rewrite filter_cons, decide_False.
  - apply IH. intros y Hy. apply Hall. by right.
  - apply Hall. by left.
Qed.

(** After a merge without eviction every input link is in the history. *)
Lemma new_unique_after_merge (t : str) (arts : list article) (h : history) :
  (length (new_unique arts h ++ get_articles h) ≤ 50)%nat →
  new_unique arts (merge t arts h) = [].
Proof.
  intros Hlen. rewrite new_unique_spec. apply filter_none.
  intros a Ha Hnot. apply Hnot. unfold get_articles at 1. simpl.
  rewrite take_ge by done. rewrite fmap_app. apply elem_of_app.
  destruct (decide (link a ∈ link <$> get_articles h)) as [Hin|Hin]; [by right |].
  left. apply list_elem_of_fmap. exists a. split; [done |].
  rewrite new_unique_spec. by apply list_elem_of_filter.
Qed.

Lemma merge_articles (t : str) (arts : list article) (h : history) :
  hist_articles (merge t arts h)
  = Some (take 50 (new_unique arts h ++ get_articles h)).
Proof. reflexivity. Qed.

Lemma merge_total (t : str) (arts : list article) (h : history) :
  hist_totalArticles (merge t arts h)
  = Some (length (take 50 (new_unique arts h ++ get_articles h))).
Proof. reflexivity. Qed.

(** X18.  Saving the same articles a second time adds nothing: when the
    first merge fits in 50 entries, the history after the second save has
    the same articles and the same count as after the first. *)
Theorem save_data_twice (t1 t2 : str) (arts : list article) (fs : files)
    (h : history) :
  load_history (news_history_json fs) = inr h →
  (length (new_unique arts h ++ get_articles h) ≤ 50)%nat →
  ∃ h1 h2,
    news_history_json (save_data t1 arts fs).1 = Parsed h1 ∧
    news_history_json (save_data t2 arts (save_data t1 arts fs).1).1 = Parsed h2 ∧
    hist_articles h2 = hist_articles h1 ∧
    hist_totalArticles h2 = hist_totalArticles h1 ∧
    hist_articles h1 = Some (new_unique arts h ++ get_articles h).
Proof.
  intros Hload Hlen. rewrite (save_data_loaded t1 arts fs h Hload). simpl.
  eexists _, _. split; [reflexivity |]. split; [reflexivity |].
  assert (get_articles (merge t1 arts h) = new_unique arts h ++ get_articles h)
    as Hfirst.
  { unfold get_articles at 1. simpl. by rewrite take_ge. }
  rewrite !merge_articles, !merge_total,
    (new_unique_after_merge t1 arts h Hlen), Hfirst, app_nil_l.
  by rewrite (take_ge _ 50 Hlen).
Qed.

(** X19.  The merge evicts from the old end only: the history written is
    the new articles (their first 50) followed by as many of the prior
    entries, from the front, as still fit; when everything fits nothing is
    evicted. *)
Theorem save_data_eviction (t : str) (arts : list article) (fs : files)
    (h : history) :
  load_history (news_history_json fs) = inr h →
  let fresh := new_unique arts h in
  let prior := get_articles h in
  ∃ h', news_history_json (save_data t arts fs).1 = Parsed h' ∧
    hist_articles h' =
      Some (take 50 fresh ++ take (50 - length fresh) prior) ∧
    ((length fresh + length prior ≤ 50)%nat →
       hist_articles h' = Some (fresh ++ prior)).
Proof.
  intros Hload. cbv zeta. rewrite (save_data_loaded t arts fs h Hload). simpl.
  eexists. split; [reflexivity |]. simpl. split.
  - by rewrite take_app.
  - intros Hlen. rewrite take_ge; [done |]. rewrite length_app. lia.
Qed.

(** X20.  The save does not look for repeated links inside its input: two
    input articles with one link that the history does not have both enter
    the history, which then holds that link twice. *)
Theorem save_data_input_duplicates (t : str) (a b : article)
    (rest : list article) (fs : files) (h : history) :
  load_history (news_history_json fs) = inr h →
  link a = link b →
  link a ∉ link <$> get_articles h →
  ∃ h' merged, news_history_json (save_data t (a :: b :: rest) fs).1 = Parsed h' ∧
    hist_articles h' = Some merged ∧
    take 2 merged = [a; b] ∧
    ¬ NoDup (link <$> merged).
Proof.
  intros Hload Hab Hnew.
  rewrite (save_data_loaded t _ fs h Hload). simpl.
  eexists _, _. split; [reflexivity |]. split; [reflexivity |].
  rewrite new_unique_spec, !filter_cons, !decide_True by (by rewrite <- ?Hab).
  simpl. split; [done |].
  rewrite Hab. intros Hnd. apply NoDup_cons in Hnd as [Hnd _].
  apply Hnd. by left.
Qed.

End PersistenceExtras.

(** A run on the sample feed saved into the sample history, which already
    holds [L1]. *)
Lemma run_then_save_history_witness :
  ∃ data h',
    Persistence.articles data
      = FeedPipeline.fetch_and_process sample_services FeedPipeline.RSS_FEEDS ∧
    NoDup (FeedPipeline.link <$> Persistence.articles data) ∧
    NoDup (FeedPipeline.link <$> Persistence.get_articles h') ∧
    length (Persistence.get_articles h') = 2%nat.
Proof.
  destruct (run_then_save_history sample_services FeedPipeline.RSS_FEEDS
              (str_of "2024-01-04T00:00:00+00:00")
              (Persistence.Build_files None (Persistence.Parsed sample_history))
              (Persistence.save_data (str_of "2024-01-04T00:00:00+00:00")
                 (FeedPipeline.fetch_and_process sample_services
                    FeedPipeline.RSS_FEEDS)
                 (Persistence.Build_files None
                    (Persistence.Parsed sample_history))).1
              sample_history eq_refl)
    as (data & h' & Hdata & Harts & Hnd & Hhist & Hnd' & _).
  - simpl. apply NoDup_singleton.
  - reflexivity.
  - exists data, h'. split; [exact Harts |]. split; [exact Hnd |].
    split; [exact Hnd' |].
    simpl in Hhist. injection Hhist as <-. by vm_compute.
Defined.

(** Saving [L2] and [L1] twice into the sample history. *)
Lemma save_data_twice_witness :
  ∃ h1 h2,
    Persistence.news_history_json
      (Persistence.save_data [] [sample_article "L2" "2024-01-03";
                                 sample_article "L1" "2024-01-02"]
         (Persistence.Build_files None (Persistence.Parsed sample_history))).1
      = Persistence.Parsed h1 ∧
    Persistence.news_history_json
      (Persistence.save_data [] [sample_article "L2" "2024-01-03";
                                 sample_article "L1" "2024-01-02"]
         (Persistence.save_data [] [sample_article "L2" "2024-01-03";
                                    sample_article "L1" "2024-01-02"]
            (Persistence.Build_files None (Persistence.Parsed sample_history))).1).1
      = Persistence.Parsed h2 ∧
    Persistence.hist_articles h2 = Persistence.hist_articles h1.
Proof.
  destruct (save_data_twice [] []
              [sample_article "L2" "2024-01-03"; sample_article "L1" "2024-01-02"]
              (Persistence.Build_files None (Persistence.Parsed sample_history))
              sample_history eq_refl)
    as (h1 & h2 & H1 & H2 & H3 & _).
  - vm_compute. lia.
  - by exists h1, h2.
Defined.

(** The eviction on the sample history. *)
Lemma save_data_eviction_witness :
  ∃ h', Persistence.news_history_json
          (Persistence.save_data [] [sample_article "L2" "2024-01-03"]
             (Persistence.Build_files None (Persistence.Parsed sample_history))).1
        = Persistence.Parsed h' ∧
        Persistence.hist_articles h' =
          Some [sample_article "L2" "2024-01-03"; sample_article "L1" "2024-01-02"].
Proof.
  destruct (save_data_eviction [] [sample_article "L2" "2024-01-03"]
              (Persistence.Build_files None (Persistence.Parsed sample_history))
              sample_history eq_refl)
    as (h' & H1 & H2 & _).
  exists h'. split; [exact H1 |]. rewrite H2. reflexivity.
Defined.

(** Two articles linked [L2] saved into the sample history. *)
Lemma save_data_input_duplicates_witness :
  ∃ h' merged,
    Persistence.news_history_json
      (Persistence.save_data [] [sample_article "L2" "2024-01-03";
                                 sample_article "L2" "2024-01-02"]
         (Persistence.Build_files None (Persistence.Parsed sample_history))).1
      = Persistence.Parsed h' ∧
    Persistence.hist_articles h' = Some merged ∧
    ¬ NoDup (FeedPipeline.link <$> merged).
Proof.
  destruct (save_data_input_duplicates []
              (sample_article "L2" "2024-01-03") (sample_article "L2" "2024-01-02")
              [] (Persistence.Build_files None (Persistence.Parsed sample_history))
              sample_history eq_refl eq_refl)
    as (h' & merged & H1 & H2 & _ & H3).
  - vm_compute. intros H. apply elem_of_cons in H as [H|H]; [discriminate H |].
    by apply elem_of_nil in H.
  - by exists h', merged.
Defined.

(** A response on one line gives the parse fallback. *)
Lemma create_summary_needs_three_lines_witness :
  Summarizer.create_summary
    (λ _, Summarizer.Response [Some (str_of "- one - two - three")])
    (str_of "T") [] []
  = Summarizer.fallback_parse (str_of "T").
Proof.
  eapply create_summary_needs_three_lines; [reflexivity |].
  vm_compute. lia.
Defined.

(** The feed [down] between two readings of a feed that parses. *)
Lemma fetch_and_process_skips_failed_feed_witness :
  FeedPipeline.fetch_and_process failing_services
    ([str_of "up"] ++ str_of "down" :: [str_of "up"])
  = FeedPipeline.fetch_and_process failing_services
    ([str_of "up"] ++ [str_of "up"]).
Proof. by apply fetch_and_process_skips_failed_feed. Defined.
